(** * libstyxe: the 9P2000 / 9P2000.e frame validator and message parser

    A shallow embedding of [include/styxe/9p2000.hpp] and [src/9p2000.cpp]:
    the parser state, the 7-byte header validator, the request and response
    payload dispatch, and the negotiated message size setter.

    Unsigned fixed-width integers are values of [Z] with the wrap-around
    written out where the source computes on them.  A [Solace::ByteReader]
    is the list of bytes that remain to be read. *)

From Stdlib Require Import ZArith Bool String List Lia.
From Stdlib.Strings Require Import Byte.
Import ListNotations.
Open Scope Z_scope.

(* ------------------------------------------------------------------------- *)
(** ** Errors and results *)

(** [enum class CannedError : int]. *)
Inductive CannedError : Type :=
| IllFormedHeader
| IllFormedHeader_FrameTooShort
| IllFormedHeader_TooBig
| UnsupportedMessageType
| NotEnoughData
| MoreThenExpectedData.

Definition CannedError_code (id : CannedError) : Z :=
  match id with
  | IllFormedHeader => 0
  | IllFormedHeader_FrameTooShort => 1
  | IllFormedHeader_TooBig => 2
  | UnsupportedMessageType => 3
  | NotEnoughData => 4
  | MoreThenExpectedData => 5
  end.

(** [Solace::Error]: a category atom, a numeric code and a message. *)
Record Error : Type := mkError {
  err_category : string;
  err_value : Z;
  err_message : string
}.

Definition kProtocolErrorCatergory : string := "9p2000"%string.

(** The macro [CANNE(id, msg)]. *)
Definition CANNE (id : CannedError) (msg : string) : Error :=
  mkError kProtocolErrorCatergory (CannedError_code id) msg.

Definition kCannedErrors : list Error :=
  [ CANNE IllFormedHeader
      "Ill-formed message header. Not enough data to read a header";
    CANNE IllFormedHeader_FrameTooShort
      "Ill-formed message: Declared frame size less than header";
    CANNE IllFormedHeader_TooBig
      "Ill-formed message: Declared frame size greater than negotiated one";
    CANNE UnsupportedMessageType
      "Ill-formed message: Unsupported message type";
    CANNE NotEnoughData
      "Ill-formed message: Declared frame size larger than message data received";
    CANNE MoreThenExpectedData
      "Ill-formed message: Declared frame size less than message data received" ].

(** [getCannedError]: the table indexed by the enumerator's value. *)
Definition getCannedError (errorId : CannedError) : Error :=
  nth (Z.to_nat (CannedError_code errorId)) kCannedErrors
      (mkError EmptyString (-1) EmptyString).

(** What a store through an array subscript does when the index is not one
    of the array's elements: C++ gives it no meaning, from the moment the
    subscript is evaluated to name the slot.  The model stops there and
    reports the index. *)
Inductive Fault : Type :=
| StoreOutOfBounds (index : Z) (extent : Z).

(** [Solace::Result<T, Error>], with the third outcome for executions the
    language leaves undefined. *)
Inductive Result (A : Type) : Type :=
| Ok (a : A)
| Err (e : Error)
| Undefined (f : Fault).

Arguments Ok {A} a.
Arguments Err {A} e.
Arguments Undefined {A} f.

Definition isOk {A} (r : Result A) : bool :=
  match r with Ok _ => true | _ => false end.

Definition isErr {A} (r : Result A) : bool :=
  match r with Err _ => true | _ => false end.

(* ------------------------------------------------------------------------- *)
(** ** Byte cursor and primitive codec *)

(** A [Solace::ByteReader] positioned somewhere in its buffer: the bytes
    still to be read, in order. *)
Definition ByteReader : Type := list byte.

Definition remaining (src : ByteReader) : Z := Z.of_nat (length src).

Definition byte_val (b : byte) : Z := Z.of_N (Byte.to_N b).

(** Little-endian value of a run of bytes. *)
Fixpoint le_value (bs : list byte) : Z :=
  match bs with
  | [] => 0
  | b :: rest => byte_val b + 256 * le_value rest
  end.

(** A decoding step: reads from the cursor and returns the value with the
    advanced cursor, or fails. *)
Definition Decoder (A : Type) : Type := ByteReader -> Result (A * ByteReader).

Definition ret {A} (a : A) : Decoder A := fun src => Ok (a, src).

Definition bind {A B} (m : Decoder A) (k : A -> Decoder B) : Decoder B :=
  fun src =>
    match m src with
    | Ok (a, src') => k a src'
    | Err e => Err e
    | Undefined f => Undefined f
    end.

Definition fail {A} (e : Error) : Decoder A := fun _ => Err e.

Declare Scope decoder_scope.
Delimit Scope decoder_scope with decoder.
Notation "x <- m ;; k" := (bind m (fun x => k))
  (at level 61, m at next level, right associativity) : decoder_scope.
Open Scope decoder_scope.

(** Modelled from the spec: the primitive reads of [styxe/decoder.hpp] over
    [Solace::ByteReader], which are not among the sources.  A read of [n]
    bytes fails with NotEnoughData when fewer than [n] bytes remain and
    otherwise returns them and advances the cursor by [n]. *)
Definition readBytes (n : nat) : Decoder (list byte) :=
  fun src =>
    if (length src <? n)%nat
    then Err (getCannedError NotEnoughData)
    else Ok (firstn n src, skipn n src).

(** Modelled from the spec: little-endian unsigned integers of 1, 2, 4 and 8
    bytes. *)
Definition readLE (width : nat) : Decoder Z :=
  bs <- readBytes width ;; ret (le_value bs).

Definition read_u8 : Decoder Z := readLE 1.
Definition read_u16 : Decoder Z := readLE 2.
Definition read_u32 : Decoder Z := readLE 4.
Definition read_u64 : Decoder Z := readLE 8.

(** Modelled from the spec: a string is a [u16] length followed by that many
    bytes; the decoded [StringView] borrows them. *)
Definition read_string : Decoder (list byte) :=
  len <- read_u16 ;; readBytes (Z.to_nat len).

(** Modelled from the spec: a byte blob ([MemoryView]) is a [u32] length
    followed by that many bytes. *)
Definition read_blob : Decoder (list byte) :=
  len <- read_u32 ;; readBytes (Z.to_nat len).

(** [decoder >> dest;] with the result discarded: on success [dest] holds the
    value read, on failure [dest] keeps what it held. *)
Definition unchecked {A} (d : Decoder A) (dest : A) (src : ByteReader)
  : A * ByteReader :=
  match d src with
  | Ok (v, src') => (v, src')
  | _ => (dest, src)
  end.

(* ------------------------------------------------------------------------- *)
(** ** Protocol data *)

(** [size_type] is [uint32]. *)
Definition u32_modulus : Z := 2 ^ 32.
Definition wrap32 (z : Z) : Z := z mod u32_modulus.

Definition kMaxMesssageSize : Z := 8 * 1024.

(** [enum class MessageType : Solace::byte].  A value of the enumeration is
    any byte: [parseMessageHeader] obtains it by [static_cast] from the byte
    read off the wire. *)
Definition MessageType : Type := Z.

Module MT.
Definition _beginSupportedMessageCode : MessageType := 100.
Definition TVersion : MessageType := 100.
Definition RVersion : MessageType := TVersion + 1.
Definition TAuth : MessageType := 102.
Definition RAuth : MessageType := TAuth + 1.
Definition TAttach : MessageType := 104.
Definition RAttach : MessageType := TAttach + 1.
Definition TError : MessageType := 106.
Definition RError : MessageType := TError + 1.
Definition TFlush : MessageType := 108.
Definition RFlush : MessageType := TFlush + 1.
Definition TWalk : MessageType := 110.
Definition RWalk : MessageType := TWalk + 1.
Definition TOpen : MessageType := 112.
Definition ROpen : MessageType := TOpen + 1.
Definition TCreate : MessageType := 114.
Definition RCreate : MessageType := TCreate + 1.
Definition TRead : MessageType := 116.
Definition RRead : MessageType := TRead + 1.
Definition TWrite : MessageType := 118.
Definition RWrite : MessageType := TWrite + 1.
Definition TClunk : MessageType := 120.
Definition RClunk : MessageType := TClunk + 1.
Definition TRemove : MessageType := 122.
Definition RRemove : MessageType := TRemove + 1.
Definition TStat : MessageType := 124.
Definition RStat : MessageType := TStat + 1.
Definition TWStat : MessageType := 126.
Definition RWStat : MessageType := TWStat + 1.
Definition TSession : MessageType := 150.
Definition RSession : MessageType := TSession + 1.
Definition TSRead : MessageType := 152.
Definition RSRead : MessageType := TSRead + 1.
Definition TSWrite : MessageType := 154.
Definition RSWrite : MessageType := TSWrite + 1.
Definition _endSupportedMessageCode : MessageType := RSWrite + 1.
End MT.

(** [struct MessageHeader]. *)
Record MessageHeader : Type := mkHeader {
  messageSize : Z;
  type : MessageType;
  tag : Z
}.

(** [headerSize()]: the sizes of the three header fields. *)
Definition headerSize : Z := 4 + 1 + 2.

(** [MessageHeader::payloadSize()]: a [size_type] subtraction. *)
Definition payloadSize (h : MessageHeader) : Z :=
  wrap32 (messageSize h - headerSize).

Definition makeHeaderWithPayload (t : MessageType) (tg : Z) (payload : Z)
  : MessageHeader :=
  mkHeader (wrap32 (headerSize + payload)) t tg.

(* ------------------------------------------------------------------------- *)
(** ** Parser state *)

Definition PROTOCOL_VERSION : string := "9P2000.e"%string.
Definition UNKNOWN_PROTOCOL_VERSION : string := "unknown"%string.
Definition NO_TAG : Z := 2 ^ 16 - 1.
Definition NOFID : Z := 2 ^ 32 - 1.

(** [struct Parser]: the four private members. *)
Record Parser : Type := mkParser {
  _maxMassageSize : Z;
  _maxNegotiatedMessageSize : Z;
  _initialVersion : string;
  _negotiatedVersion : string
}.

(** The constructor [Parser(maxMassageSize, version)]. *)
Definition Parser_new (maxMassageSize : Z) (version : string) : Parser :=
  mkParser maxMassageSize maxMassageSize version version.

(** The constructor with both default arguments. *)
Definition Parser_default : Parser :=
  Parser_new kMaxMesssageSize PROTOCOL_VERSION.

Definition maxPossibleMessageSize (p : Parser) : Z := _maxMassageSize p.

(** The getter overload [maxNegotiatedMessageSize()]. *)
Definition maxNegotiatedMessageSize (p : Parser) : Z :=
  _maxNegotiatedMessageSize p.

Definition getNegotiatedVersion (p : Parser) : string := _negotiatedVersion p.

Definition setNegotiatedVersion (p : Parser) (version : string) : Parser :=
  mkParser (_maxMassageSize p) (_maxNegotiatedMessageSize p)
           (_initialVersion p) version.

(* ------------------------------------------------------------------------- *)
(** ** Frame validator *)

(** [Parser::parseMessageHeader].  The reader is passed by reference, so the
    cursor the caller is left with is returned next to the result.  The three
    reads have their results discarded in the source; the destination of a
    failed read is shown as 0. *)
Definition parseMessageHeader (p : Parser) (src : ByteReader)
  : Result MessageHeader * ByteReader :=
  let mandatoryHeaderSize := headerSize in
  let dataAvailable := remaining src in
  if dataAvailable <? mandatoryHeaderSize then
    (Err (getCannedError IllFormedHeader), src)
  else
    let '(size, src1) := unchecked read_u32 0 src in
    if size <? mandatoryHeaderSize then
      (Err (getCannedError IllFormedHeader_FrameTooShort), src1)
    else if size >? maxNegotiatedMessageSize p then
      (Err (getCannedError IllFormedHeader_TooBig), src1)
    else
      let '(messageBytecode, src2) := unchecked read_u8 0 src1 in
      let ty : MessageType := messageBytecode in
      if (ty <? MT._beginSupportedMessageCode)
         || (ty >=? MT._endSupportedMessageCode) then
        (Err (getCannedError UnsupportedMessageType), src2)
      else
        let '(tg, src3) := unchecked read_u16 0 src2 in
        (Ok (mkHeader size ty tg), src3).

(* ------------------------------------------------------------------------- *)
(** ** Compound data *)

(** [struct Qid]. *)
Record Qid : Type := mkQid {
  qid_type : Z;
  qid_version : Z;
  qid_path : Z
}.

(** [struct Stat]. *)
Record Stat : Type := mkStat {
  stat_size : Z;
  stat_type : Z;
  stat_dev : Z;
  stat_qid : Qid;
  stat_mode : Z;
  stat_atime : Z;
  stat_mtime : Z;
  stat_length : Z;
  stat_name : list byte;
  stat_uid : list byte;
  stat_gid : list byte;
  stat_muid : list byte
}.

(** [WalkPath]: a counted run of strings. *)
Definition WalkPath : Type := list (list byte).

(** [struct OpenMode]. *)
Record OpenMode : Type := mkOpenMode { mode : Z }.

(** Modelled from the spec: [decoder >> Qid] of [styxe/decoder.hpp], thirteen
    bytes as [type(u8) version(u32) path(u64)]. *)
Definition read_qid : Decoder Qid :=
  t <- read_u8 ;;
  v <- read_u32 ;;
  p <- read_u64 ;;
  ret (mkQid t v p).

(** Modelled from the spec: [decoder >> Stat] of [styxe/decoder.hpp]; the
    outer [size] is taken as given. *)
Definition read_stat : Decoder Stat :=
  sz <- read_u16 ;;
  ty <- read_u16 ;;
  dev <- read_u32 ;;
  q <- read_qid ;;
  md <- read_u32 ;;
  atime <- read_u32 ;;
  mtime <- read_u32 ;;
  len <- read_u64 ;;
  name <- read_string ;;
  uid <- read_string ;;
  gid <- read_string ;;
  muid <- read_string ;;
  ret (mkStat sz ty dev q md atime mtime len name uid gid muid).

Fixpoint read_strings (count : nat) : Decoder (list (list byte)) :=
  match count with
  | O => ret []
  | S count' =>
      s <- read_string ;;
      rest <- read_strings count' ;;
      ret (s :: rest)
  end.

(** Modelled from the spec: [decoder >> WalkPath] of [styxe/decoder.hpp], a
    [u16] count followed by that many strings. *)
Definition read_walkpath : Decoder WalkPath :=
  count <- read_u16 ;; read_strings (Z.to_nat count).

(* ------------------------------------------------------------------------- *)
(** ** Messages *)

(** [struct Response::Walk]: the count and the sixteen inline slots.  The
    struct has no initialiser, so a slot holds a Qid only once one has been
    stored in it: [None] is a slot never written, whose content is whatever
    the memory held. *)
Record Response_Walk : Type := mkWalk {
  nqids : Z;
  qids : list (option Qid)
}.

Definition Walk_extent : nat := 16.

(** [using RequestMessage = std::variant<...>]. *)
Inductive RequestMessage : Type :=
| Request_Version (msize : Z) (version : list byte)
| Request_Auth (afid : Z) (uname aname : list byte)
| Request_Flush (oldtag : Z)
| Request_Attach (fid afid : Z) (uname aname : list byte)
| Request_Walk (fid newfid : Z) (path : WalkPath)
| Request_Open (fid : Z) (md : OpenMode)
| Request_Create (fid : Z) (name : list byte) (perm : Z) (md : OpenMode)
| Request_Read (fid offset count : Z)
| Request_Write (fid offset : Z) (data : list byte)
| Request_Clunk (fid : Z)
| Request_Remove (fid : Z)
| Request_StatRequest (fid : Z)
| Request_WStat (fid : Z) (stat : Stat)
| Request_9P2000E_Session (key : list Z)
| Request_9P2000E_SRead (fid : Z) (path : WalkPath)
| Request_9P2000E_SWrite (fid : Z) (path : WalkPath) (data : list byte).

(** [using ResponseMessage = std::variant<...>]. *)
Inductive ResponseMessage : Type :=
| Response_Version (msize : Z) (version : list byte)
| Response_Auth (qid : Qid)
| Response_Attach (qid : Qid)
| Response_Error (ename : list byte)
| Response_Flush
| Response_Walk_ (walk : Response_Walk)
| Response_Open (qid : Qid) (iounit : Z)
| Response_Create (qid : Qid) (iounit : Z)
| Response_Read (data : list byte)
| Response_Write (count : Z)
| Response_Clunk
| Response_Remove
| Response_Stat (dummySize : Z) (data : Stat)
| Response_WStat
| Response_9P2000E_Session.

(** [result.then(OkRespose{fcall})] and [result.then(OkRequest(msg))]: a
    successful decode is wrapped into the variant. *)
Definition andThen {A B} (d : Decoder A) (wrap : A -> B) : Decoder B :=
  a <- d ;; ret (wrap a).

(* ------------------------------------------------------------------------- *)
(** ** Response payload decoders *)

Definition parseNoDataResponse (t : ResponseMessage) : Decoder ResponseMessage :=
  ret t.

Definition parseErrorResponse : Decoder ResponseMessage :=
  andThen read_string Response_Error.

Definition parseVersionResponse : Decoder ResponseMessage :=
  msize <- read_u32 ;;
  version <- read_string ;;
  ret (Response_Version msize version).

Definition parseAuthResponse : Decoder ResponseMessage :=
  andThen read_qid Response_Auth.

Definition parseAttachResponse : Decoder ResponseMessage :=
  andThen read_qid Response_Attach.

Definition parseOpenResponse : Decoder ResponseMessage :=
  q <- read_qid ;;
  iounit <- read_u32 ;;
  ret (Response_Open q iounit).

Definition parseCreateResponse : Decoder ResponseMessage :=
  q <- read_qid ;;
  iounit <- read_u32 ;;
  ret (Response_Create q iounit).

Definition parseReadResponse : Decoder ResponseMessage :=
  andThen read_blob Response_Read.

Definition parseWriteResponse : Decoder ResponseMessage :=
  andThen read_u32 Response_Write.

Definition parseStatResponse : Decoder ResponseMessage :=
  dummySize <- read_u16 ;;
  data <- read_stat ;;
  ret (Response_Stat dummySize data).

(** Replace the element at position [i]; positions outside the list are the
    caller's business. *)
Fixpoint list_update {A} (l : list A) (i : nat) (v : A) : list A :=
  match l, i with
  | [], _ => []
  | _ :: rest, O => v :: rest
  | x :: rest, S i' => x :: list_update rest i' v
  end.

(** The subscript [fcall.qids[i]]: the slot it names.  The source indexes
    with no check of its own, so an index that is not a slot of the array
    names storage outside the object. *)
Definition slot_ref {A} (slots : list A) (i : Z) : Result nat :=
  if (0 <=? i) && (i <? Z.of_nat (length slots))
  then Ok (Z.to_nat i)
  else Undefined (StoreOutOfBounds i (Z.of_nat (length slots))).

(** [decoder >> fcall.qids[i]]: the operand [fcall.qids[i]] is evaluated
    first, then the decoder reads the thirteen bytes into the slot it
    names.  A read that fails leaves no message behind. *)
Definition read_qid_into (slots : list (option Qid)) (i : Z)
  : Decoder (list (option Qid)) :=
  fun src =>
    match slot_ref slots i with
    | Ok k =>
        match read_qid src with
        | Ok (q, src') => Ok (list_update slots k (Some q), src')
        | Err e => Err e
        | Undefined f => Undefined f
        end
    | Err e => Err e
    | Undefined f => Undefined f
    end.

(** The loop [for (i = 0; i < fcall.nqids && result; ++i)] of
    [parseWalkResponse], entered at index [i] with [todo] iterations to go
    ([todo = nqids - i]).  A failed read ends the loop with that error. *)
Fixpoint parseWalkResponse_loop (todo : nat) (i : Z)
         (slots : list (option Qid)) : Decoder (list (option Qid)) :=
  match todo with
  | O => ret slots
  | S todo' =>
      slots' <- read_qid_into slots i ;;
      parseWalkResponse_loop todo' (i + 1) slots'
  end.

(** [Response::Walk fcall;] default-initialises the struct: none of the
    sixteen slots has been written. *)
Definition Walk_fresh_slots : list (option Qid) := repeat None Walk_extent.

Definition parseWalkResponse : Decoder ResponseMessage :=
  n <- read_u16 ;;
  slots <- parseWalkResponse_loop (Z.to_nat n) 0 Walk_fresh_slots ;;
  ret (Response_Walk_ (mkWalk n slots)).

(* ------------------------------------------------------------------------- *)
(** ** Request payload decoders *)

Definition parseVersionRequest : Decoder RequestMessage :=
  msize <- read_u32 ;;
  version <- read_string ;;
  ret (Request_Version msize version).

Definition parseAuthRequest : Decoder RequestMessage :=
  afid <- read_u32 ;;
  uname <- read_string ;;
  aname <- read_string ;;
  ret (Request_Auth afid uname aname).

Definition parseFlushRequest : Decoder RequestMessage :=
  andThen read_u16 Request_Flush.

Definition parseAttachRequest : Decoder RequestMessage :=
  fid <- read_u32 ;;
  afid <- read_u32 ;;
  uname <- read_string ;;
  aname <- read_string ;;
  ret (Request_Attach fid afid uname aname).

Definition parseWalkRequest : Decoder RequestMessage :=
  fid <- read_u32 ;;
  newfid <- read_u32 ;;
  path <- read_walkpath ;;
  ret (Request_Walk fid newfid path).

Definition parseOpenRequest : Decoder RequestMessage :=
  fid <- read_u32 ;;
  m <- read_u8 ;;
  ret (Request_Open fid (mkOpenMode m)).

Definition parseCreateRequest : Decoder RequestMessage :=
  fid <- read_u32 ;;
  name <- read_string ;;
  perm <- read_u32 ;;
  m <- read_u8 ;;
  ret (Request_Create fid name perm (mkOpenMode m)).

Definition parseReadRequest : Decoder RequestMessage :=
  fid <- read_u32 ;;
  offset <- read_u64 ;;
  count <- read_u32 ;;
  ret (Request_Read fid offset count).

Definition parseWriteRequest : Decoder RequestMessage :=
  fid <- read_u32 ;;
  offset <- read_u64 ;;
  data <- read_blob ;;
  ret (Request_Write fid offset data).

Definition parseClunkRequest : Decoder RequestMessage :=
  andThen read_u32 Request_Clunk.

Definition parseRemoveRequest : Decoder RequestMessage :=
  andThen read_u32 Request_Remove.

Definition parseStatRequest : Decoder RequestMessage :=
  andThen read_u32 Request_StatRequest.

Definition parseWStatRequest : Decoder RequestMessage :=
  fid <- read_u32 ;;
  stat <- read_stat ;;
  ret (Request_WStat fid stat).

Definition parseSessionRequest : Decoder RequestMessage :=
  k0 <- read_u8 ;;
  k1 <- read_u8 ;;
  k2 <- read_u8 ;;
  k3 <- read_u8 ;;
  k4 <- read_u8 ;;
  k5 <- read_u8 ;;
  k6 <- read_u8 ;;
  k7 <- read_u8 ;;
  ret (Request_9P2000E_Session [k0; k1; k2; k3; k4; k5; k6; k7]).

Definition parseShortReadRequest : Decoder RequestMessage :=
  fid <- read_u32 ;;
  path <- read_walkpath ;;
  ret (Request_9P2000E_SRead fid path).

Definition parseShortWriteRequest : Decoder RequestMessage :=
  fid <- read_u32 ;;
  path <- read_walkpath ;;
  data <- read_blob ;;
  ret (Request_9P2000E_SWrite fid path data).

(* ------------------------------------------------------------------------- *)
(** ** Dispatch *)

(** The [switch (header.type)] of [Parser::parseResponse]. *)
Definition dispatchResponse (t : MessageType) : Decoder ResponseMessage :=
  if t =? MT.RError then parseErrorResponse
  else if t =? MT.RVersion then parseVersionResponse
  else if t =? MT.RAuth then parseAuthResponse
  else if t =? MT.RAttach then parseAttachResponse
  else if t =? MT.RWalk then parseWalkResponse
  else if t =? MT.ROpen then parseOpenResponse
  else if t =? MT.RCreate then parseCreateResponse
  else if (t =? MT.RSRead) || (t =? MT.RRead) then parseReadResponse
  else if (t =? MT.RSWrite) || (t =? MT.RWrite) then parseWriteResponse
  else if t =? MT.RStat then parseStatResponse
  else if t =? MT.RFlush then parseNoDataResponse Response_Flush
  else if t =? MT.RClunk then parseNoDataResponse Response_Clunk
  else if t =? MT.RRemove then parseNoDataResponse Response_Remove
  else if t =? MT.RWStat then parseNoDataResponse Response_WStat
  else if t =? MT.RSession then parseNoDataResponse Response_9P2000E_Session
  else fail (getCannedError UnsupportedMessageType).

(** The [switch (header.type)] of [Parser::parseRequest]. *)
Definition dispatchRequest (t : MessageType) : Decoder RequestMessage :=
  if t =? MT.TVersion then parseVersionRequest
  else if t =? MT.TAuth then parseAuthRequest
  else if t =? MT.TFlush then parseFlushRequest
  else if t =? MT.TAttach then parseAttachRequest
  else if t =? MT.TWalk then parseWalkRequest
  else if t =? MT.TOpen then parseOpenRequest
  else if t =? MT.TCreate then parseCreateRequest
  else if t =? MT.TRead then parseReadRequest
  else if t =? MT.TWrite then parseWriteRequest
  else if t =? MT.TClunk then parseClunkRequest
  else if t =? MT.TRemove then parseRemoveRequest
  else if t =? MT.TStat then parseStatRequest
  else if t =? MT.TWStat then parseWStatRequest
  else if t =? MT.TSession then parseSessionRequest
  else if t =? MT.TSRead then parseShortReadRequest
  else if t =? MT.TSWrite then parseShortWriteRequest
  else fail (getCannedError UnsupportedMessageType).

(** [Parser::parseResponse]. *)
Definition parseResponse (p : Parser) (header : MessageHeader) (data : ByteReader)
  : Result (ResponseMessage * ByteReader) :=
  let expectedData := payloadSize header in
  if messageSize header >? maxNegotiatedMessageSize p then
    Err (getCannedError IllFormedHeader_TooBig)
  else
    let bytesRemaining := remaining data in
    if expectedData >? bytesRemaining then
      Err (getCannedError NotEnoughData)
    else if expectedData <? bytesRemaining then
      Err (getCannedError MoreThenExpectedData)
    else dispatchResponse (type header) data.

(** [Parser::parseRequest]. *)
Definition parseRequest (p : Parser) (header : MessageHeader) (data : ByteReader)
  : Result (RequestMessage * ByteReader) :=
  let expectedData := payloadSize header in
  if messageSize header >? maxNegotiatedMessageSize p then
    Err (getCannedError IllFormedHeader_TooBig)
  else
    let bytesRemaining := remaining data in
    if expectedData >? bytesRemaining then
      Err (getCannedError NotEnoughData)
    else if expectedData <? bytesRemaining then
      Err (getCannedError MoreThenExpectedData)
    else dispatchRequest (type header) data.

(* ------------------------------------------------------------------------- *)
(** ** Negotiated message size *)

(** What a call that can throw comes back with. *)
Inductive Outcome (A : Type) : Type :=
| Returned (a : A)
| Raised_IndexOutOfRange (index from to : Z).

Arguments Returned {A} a.
Arguments Raised_IndexOutOfRange {A} index from to.

(** [Solace::assertIndexInRange(index, from, to)] of [solace/assert.hpp],
    a header of libsolace and not of this repository: returns [index] when
    it lies in the half-open range from [from] up to [to], and raises
    [IndexOutOfRangeException] otherwise.  The call site passes
    [maxPossibleMessageSize() + 1] as [to], so that the configured size
    itself is in range. *)
Definition assertIndexInRange (index from to : Z) : Outcome Z :=
  if (index >=? to) || (index <? from)
  then Raised_IndexOutOfRange index from to
  else Returned index.

(** The setter overload [Parser::maxNegotiatedMessageSize(newMessageSize)]:
    the value returned and the parser after the call.  When the assertion
    raises, the assignment is not reached and the parser is as it was. *)
Definition maxNegotiatedMessageSize_set (p : Parser) (newMessageSize : Z)
  : Outcome (Z * Parser) :=
  match assertIndexInRange newMessageSize 0
          (wrap32 (maxPossibleMessageSize p + 1)) with
  | Raised_IndexOutOfRange i f t => Raised_IndexOutOfRange i f t
  | Returned _ =>
      let v := Z.min newMessageSize (maxPossibleMessageSize p) in
      Returned (v, mkParser (_maxMassageSize p) v
                            (_initialVersion p) (_negotiatedVersion p))
  end.

(** The parser a caller holds after the call, whichever way it ended. *)
Definition parser_after (p : Parser) (o : Outcome (Z * Parser)) : Parser :=
  match o with
  | Returned (_, p') => p'
  | Raised_IndexOutOfRange _ _ _ => p
  end.

(** A run of setter calls, one per requested size. *)
Definition negotiate_all (p : Parser) (xs : list Z) : Parser :=
  fold_left (fun q x => parser_after q (maxNegotiatedMessageSize_set q x)) xs p.

(** A value of [size_type]. *)
Definition is_u32 (z : Z) : Prop := 0 <= z < u32_modulus.

(* ------------------------------------------------------------------------- *)
(** ** Reading a frame off a buffer *)

(** The three header fields as they lie in a buffer, before any parsing. *)
Definition sizeField (src : ByteReader) : Z := le_value (firstn 4 src).
Definition typeField (src : ByteReader) : Z := le_value (firstn 1 (skipn 4 src)).
Definition tagField (src : ByteReader) : Z := le_value (firstn 2 (skipn 5 src)).

(** The count an RWalk payload announces. *)
Definition nqidsField (data : ByteReader) : Z := le_value (firstn 2 data).

(** The 32-bit value a payload starts with: the length of the blob in an
    RRead or RSRead payload, the count in an RWrite or RSWrite payload. *)
Definition leadingU32 (data : ByteReader) : Z := le_value (firstn 4 data).

(* ------------------------------------------------------------------------- *)
(** ** Comparison operators *)

(** [operator==] on two [Solace::StringView]s: the same bytes. *)
Definition StringView_eqb (a b : list byte) : bool :=
  if list_eq_dec Byte.byte_eq_dec a b then true else false.

(** [operator== (OpenMode, OpenMode)], and the two overloads against a
    byte. *)
Definition OpenMode_eqb (lhs rhs : OpenMode) : bool := mode lhs =? mode rhs.
Definition OpenMode_eqb_byte (lhs : OpenMode) (rhs : Z) : bool := mode lhs =? rhs.
Definition byte_eqb_OpenMode (lhs : Z) (rhs : OpenMode) : bool := lhs =? mode rhs.

(** [operator== (Qid const&, Qid const&)]. *)
Definition Qid_eqb (lhs rhs : Qid) : bool :=
  (qid_path lhs =? qid_path rhs)
  && (qid_version lhs =? qid_version rhs)
  && (qid_type lhs =? qid_type rhs).

(** [operator== (Stat const&, Stat const&)]: eleven comparisons, in the
    order of the source. *)
Definition Stat_eqb (lhs rhs : Stat) : bool :=
  (stat_atime lhs =? stat_atime rhs)
  && (stat_dev lhs =? stat_dev rhs)
  && StringView_eqb (stat_gid lhs) (stat_gid rhs)
  && (stat_length lhs =? stat_length rhs)
  && (stat_mode lhs =? stat_mode rhs)
  && (stat_mtime lhs =? stat_mtime rhs)
  && StringView_eqb (stat_name lhs) (stat_name rhs)
  && Qid_eqb (stat_qid lhs) (stat_qid rhs)
  && (stat_size lhs =? stat_size rhs)
  && (stat_type lhs =? stat_type rhs)
  && StringView_eqb (stat_uid lhs) (stat_uid rhs).

(** The Stat with another [muid]. *)
Definition Stat_with_muid (s : Stat) (m : list byte) : Stat :=
  mkStat (stat_size s) (stat_type s) (stat_dev s) (stat_qid s) (stat_mode s)
         (stat_atime s) (stat_mtime s) (stat_length s) (stat_name s)
         (stat_uid s) (stat_gid s) m.

(* ------------------------------------------------------------------------- *)
(** ** The fuzzing driver ([examples/fuzz-parser.cpp]) *)

(** What one run of the driver computes before it throws the results away:
    the header parse failed, or the payload went to one of the two entry
    points. *)
Inductive FuzzRun : Type :=
| HeaderRefused (r : Result MessageHeader)
| RequestRouted (r : Result (RequestMessage * ByteReader))
| ResponseRouted (r : Result (ResponseMessage * ByteReader)).

(** The body of [LLVMFuzzerTestOneInput]: a default parser, the header
    parse, and in its continuation the entry point chosen by the parity of
    the type byte, run on the same reader. *)
Definition fuzzRun (data : list byte) : FuzzRun :=
  let reader : ByteReader := data in
  let proc := Parser_default in
  match parseMessageHeader proc reader with
  | (Ok header, reader') =>
      let isRequest := (type header) mod 2 =? 0 in
      if isRequest
      then RequestRouted (parseRequest proc header reader')
      else ResponseRouted (parseResponse proc header reader')
  | (r, _) => HeaderRefused r
  end.

(** [LLVMFuzzerTestOneInput] itself returns 0 whatever happened. *)
Definition LLVMFuzzerTestOneInput (data : list byte) : Z :=
  let _ := fuzzRun data in 0.

(** A [std::vector<uint8_t>]: its elements and its capacity. *)
Record vector : Type := mkVector {
  vec_elems : list byte;
  vec_capacity : nat
}.

Definition vec_size (v : vector) : nat := length (vec_elems v).

(** [reserve(n)] grows the capacity and leaves the elements alone. *)
Definition vec_reserve (v : vector) (n : nat) : vector :=
  mkVector (vec_elems v) (Nat.max (vec_capacity v) n).

(** The buffer [readDataAndTest] hands to the driver for a stream holding
    [input]: the vector is reserved, [in.read] is asked for [buf.size()]
    characters and stores them from [buf.data()] on, [gcount()] is what was
    extracted, and the vector is resized to that. *)
Definition readDataAndTest_buffer (input : list byte) : list byte :=
  let buf := vec_reserve (mkVector [] 0) (Z.to_nat kMaxMesssageSize) in
  let asked := vec_size buf in
  let extracted := firstn asked input in
  let got := length extracted in
  firstn got extracted.

Definition readDataAndTest (input : list byte) : Z :=
  LLVMFuzzerTestOneInput (readDataAndTest_buffer input).

(* ------------------------------------------------------------------------- *)
(** ** Shapes of decoders *)

(** A decoder that only moves the cursor forward and stores through no
    unchecked subscript: what it leaves is a tail of what it was given. *)
Definition forward {A} (d : Decoder A) : Prop :=
  forall src,
    match d src with
    | Ok (_, rest) => exists consumed, src = consumed ++ rest
    | Err _ => True
    | Undefined _ => False
    end.

(** The type codes each switch has a case for. *)
Definition request_codes : list Z :=
  [MT.TVersion; MT.TAuth; MT.TFlush; MT.TAttach; MT.TWalk; MT.TOpen;
   MT.TCreate; MT.TRead; MT.TWrite; MT.TClunk; MT.TRemove; MT.TStat;
   MT.TWStat; MT.TSession; MT.TSRead; MT.TSWrite].

Definition response_codes : list Z :=
  [MT.RError; MT.RVersion; MT.RAuth; MT.RAttach; MT.RWalk; MT.ROpen;
   MT.RCreate; MT.RSRead; MT.RRead; MT.RSWrite; MT.RWrite; MT.RStat;
   MT.RFlush; MT.RClunk; MT.RRemove; MT.RWStat; MT.RSession].

(** The replies that carry no payload, with the variant each one yields. *)
Definition no_data_responses : list (Z * ResponseMessage) :=
  [(MT.RFlush, Response_Flush); (MT.RClunk, Response_Clunk);
   (MT.RRemove, Response_Remove); (MT.RWStat, Response_WStat);
   (MT.RSession, Response_9P2000E_Session)].

(** The Qid that lies [k] Qids into a run of encoded Qids: thirteen bytes
    from offset [13 * k], as type, version and path. *)
Definition qidAt (src : ByteReader) (k : nat) : Qid :=
  mkQid (le_value (firstn 1 (skipn (13 * k) src)))
        (le_value (firstn 4 (skipn (13 * k + 1) src)))
        (le_value (firstn 8 (skipn (13 * k + 5) src))).

(* ========================================================================= *)
(** * Properties *)

Lemma byte_val_range b : 0 <= byte_val b < 256.
Proof.
  unfold byte_val. pose proof (Byte.to_N_bounded b) as H. lia.
Qed.

Lemma le_value_range bs : 0 <= le_value bs < 256 ^ Z.of_nat (length bs).
Proof.
  induction bs as [|b bs IH].
  - simpl. lia.
  - cbn [le_value length]. rewrite Nat2Z.inj_succ, Z.pow_succ_r by lia.
    pose proof (byte_val_range b). lia.
Qed.

Lemma getCannedError_inj a b : getCannedError a = getCannedError b -> a = b.
Proof.
  destruct a, b; intros H; try reflexivity; vm_compute in H; discriminate H.
Qed.

Lemma remaining_nonneg src : 0 <= remaining src.
Proof. unfold remaining. lia. Qed.

Lemma remaining_skipn n src :
  Z.of_nat n <= remaining src -> remaining (skipn n src) = remaining src - Z.of_nat n.
Proof.
  unfold remaining. intros H. rewrite length_skipn. lia.
Qed.

(** With seven bytes in the buffer the three reads of the validator cannot
    fail, and the function is the cascade of its four tests over the header
    fields. *)
Lemma parseMessageHeader_steps p src :
  headerSize <= remaining src ->
  parseMessageHeader p src =
    if sizeField src <? headerSize then
      (Err (getCannedError IllFormedHeader_FrameTooShort), skipn 4 src)
    else if sizeField src >? maxNegotiatedMessageSize p then
      (Err (getCannedError IllFormedHeader_TooBig), skipn 4 src)
    else if (typeField src <? MT._beginSupportedMessageCode)
            || (typeField src >=? MT._endSupportedMessageCode) then
      (Err (getCannedError UnsupportedMessageType), skipn 5 src)
    else
      (Ok (mkHeader (sizeField src) (typeField src) (tagField src)), skipn 7 src).
Proof.
  intros Hlen. unfold parseMessageHeader.
  destruct (Z.ltb_spec (remaining src) headerSize) as [Hlt|_]; [lia|].
  do 7 (destruct src as [|? src];
        [unfold remaining, headerSize in Hlen; simpl in Hlen; lia|]).
  reflexivity.
Qed.

Lemma sizeField_u32 src : is_u32 (sizeField src).
Proof.
  unfold is_u32, sizeField, u32_modulus.
  pose proof (le_value_range (firstn 4 src)) as H.
  assert (Hl : (length (firstn 4 src) <= 4)%nat) by apply firstn_le_length.
  assert (256 ^ Z.of_nat (length (firstn 4 src)) <= 256 ^ 4)
    by (apply Z.pow_le_mono_r; lia).
  change (2 ^ 32) with (256 ^ 4). lia.
Qed.

Lemma typeField_u8 src : 0 <= typeField src < 256.
Proof.
  unfold typeField.
  pose proof (le_value_range (firstn 1 (skipn 4 src))) as H.
  assert (Hl : (length (firstn 1 (skipn 4 src)) <= 1)%nat) by apply firstn_le_length.
  assert (256 ^ Z.of_nat (length (firstn 1 (skipn 4 src))) <= 256 ^ 1)
    by (apply Z.pow_le_mono_r; lia).
  lia.
Qed.

(** C6. Header guard: on every buffer with fewer than seven bytes left,
    [parseMessageHeader] returns the IllFormedHeader error, and the cursor
    has not moved. *)
Theorem parseMessageHeader_short_buffer p src :
  remaining src < 7 ->
  parseMessageHeader p src = (Err (getCannedError IllFormedHeader), src).
Proof.
  intros H. unfold parseMessageHeader.
  destruct (Z.ltb_spec (remaining src) headerSize) as [_|Hge].
  - reflexivity.
  - unfold headerSize in Hge. lia.
Qed.

Lemma parseMessageHeader_short_buffer_witness :
  remaining [x13; x00; x00; x00; x64; xff] < 7 /\
  parseMessageHeader Parser_default [x13; x00; x00; x00; x64; xff]
  = (Err (getCannedError IllFormedHeader), [x13; x00; x00; x00; x64; xff]).
Proof.
  split.
  - vm_compute. reflexivity.
  - apply (parseMessageHeader_short_buffer Parser_default
             [x13; x00; x00; x00; x64; xff]).
    vm_compute. reflexivity.
Defined.

(** C5. Size guards of the header parse: with seven bytes available, a size
    field below 7 gives FrameTooShort whatever the negotiated size is (so
    also when the size field exceeds it: the FrameTooShort test comes
    first), and a size field of at least 7 that exceeds the negotiated size
    gives TooBig. *)
Theorem parseMessageHeader_size_guards p src :
  7 <= remaining src ->
  (sizeField src < 7 ->
   fst (parseMessageHeader p src)
   = Err (getCannedError IllFormedHeader_FrameTooShort)) /\
  (7 <= sizeField src -> sizeField src > maxNegotiatedMessageSize p ->
   fst (parseMessageHeader p src)
   = Err (getCannedError IllFormedHeader_TooBig)) /\
  (sizeField src < 7 -> sizeField src > maxNegotiatedMessageSize p ->
   fst (parseMessageHeader p src)
   <> Err (getCannedError IllFormedHeader_TooBig)).
Proof.
  intros Hlen. rewrite (parseMessageHeader_steps p src) by exact Hlen.
  change headerSize with 7. repeat split.
  - intros Hs. destruct (Z.ltb_spec (sizeField src) 7); [reflexivity|lia].
  - intros Hs Hbig. destruct (Z.ltb_spec (sizeField src) 7); [lia|].
    destruct (Z.gtb_spec (sizeField src) (maxNegotiatedMessageSize p));
      [reflexivity|lia].
  - intros Hs _. destruct (Z.ltb_spec (sizeField src) 7); [|lia].
    cbn [fst]. intros Heq.
    assert (E : getCannedError IllFormedHeader_FrameTooShort
                = getCannedError IllFormedHeader_TooBig) by congruence.
    apply getCannedError_inj in E. discriminate E.
Qed.

Lemma parseMessageHeader_size_guards_witness :
  (* size = 5 on the default parser: too short *)
  fst (parseMessageHeader Parser_default [x05; x00; x00; x00; x64; x00; x00])
  = Err (getCannedError IllFormedHeader_FrameTooShort) /\
  (* size = 4096 with 256 negotiated: too big *)
  fst (parseMessageHeader (mkParser 8192 256 PROTOCOL_VERSION PROTOCOL_VERSION)
         [x00; x10; x00; x00; x64; x00; x00])
  = Err (getCannedError IllFormedHeader_TooBig) /\
  (* size = 5 with 3 negotiated: both tests would fire, the first one wins *)
  fst (parseMessageHeader (mkParser 8192 3 PROTOCOL_VERSION PROTOCOL_VERSION)
         [x05; x00; x00; x00; x64; x00; x00])
  <> Err (getCannedError IllFormedHeader_TooBig).
Proof.
  split; [|split].
  - apply (parseMessageHeader_size_guards Parser_default
             [x05; x00; x00; x00; x64; x00; x00]);
      vm_compute; congruence.
  - apply (parseMessageHeader_size_guards
             (mkParser 8192 256 PROTOCOL_VERSION PROTOCOL_VERSION)
             [x00; x10; x00; x00; x64; x00; x00]);
      vm_compute; congruence.
  - apply (parseMessageHeader_size_guards
             (mkParser 8192 3 PROTOCOL_VERSION PROTOCOL_VERSION)
             [x05; x00; x00; x00; x64; x00; x00]);
      vm_compute; congruence.
Defined.

(** C7. The header parse does not look at the payload: on every buffer of
    at least seven bytes whose size field lies between 7 and the negotiated
    size and whose type byte is a recognised code (100 to 127 or 150 to
    155), the parse succeeds with the three fields as read and leaves the
    cursor exactly seven bytes further, however few bytes follow the
    header. *)
Theorem parseMessageHeader_ignores_payload p src :
  7 <= remaining src ->
  7 <= sizeField src <= maxNegotiatedMessageSize p ->
  (100 <= typeField src <= 127 \/ 150 <= typeField src <= 155) ->
  parseMessageHeader p src
  = (Ok (mkHeader (sizeField src) (typeField src) (tagField src)), skipn 7 src)
  /\ remaining (snd (parseMessageHeader p src)) = remaining src - 7.
Proof.
  intros Hlen [Hlo Hhi] Hty.
  assert (Hsteps := parseMessageHeader_steps p src Hlen).
  change headerSize with 7 in Hsteps.
  destruct (Z.ltb_spec (sizeField src) 7) as [Hs|_]; [lia|].
  destruct (Z.gtb_spec (sizeField src) (maxNegotiatedMessageSize p)) as [Hb|_];
    [lia|].
  change MT._beginSupportedMessageCode with 100 in Hsteps.
  change MT._endSupportedMessageCode with 156 in Hsteps.
  destruct (Z.ltb_spec (typeField src) 100) as [Ht|_]; [lia|].
  destruct (Z.geb_spec (typeField src) 156) as [Ht|_]; [lia|].
  cbn [orb] in Hsteps. rewrite Hsteps. split; [reflexivity|].
  cbn [snd]. apply (remaining_skipn 7). exact Hlen.
Qed.

(** A TRead header that announces a 23-byte frame, with nothing after it. *)
Lemma parseMessageHeader_ignores_payload_witness :
  remaining (skipn 7 [x17; x00; x00; x00; x74; x01; x00])
    < sizeField [x17; x00; x00; x00; x74; x01; x00] - 7 /\
  parseMessageHeader Parser_default [x17; x00; x00; x00; x74; x01; x00]
  = (Ok (mkHeader 23 MT.TRead 1), []).
Proof.
  split.
  - vm_compute. reflexivity.
  - apply (parseMessageHeader_ignores_payload Parser_default
             [x17; x00; x00; x00; x74; x01; x00]); vm_compute;
      [congruence | split; congruence | left; split; congruence].
Defined.

(** C1, as the code has it. Type guard of the header parse: on every buffer
    of at least seven bytes whose size field lies between 7 and the
    negotiated size, [parseMessageHeader] fails with UnsupportedMessageType
    exactly when the type byte is below 100 or above 155.  The test is the
    range between the two sentinels of the enumeration; the unassigned codes
    128 to 149 and the code 106 lie inside it and pass. *)
Theorem parseMessageHeader_type_guard p src :
  7 <= remaining src ->
  7 <= sizeField src <= maxNegotiatedMessageSize p ->
  (fst (parseMessageHeader p src) = Err (getCannedError UnsupportedMessageType)
   <-> (typeField src < 100 \/ typeField src > 155)).
Proof.
  intros Hlen [Hlo Hhi].
  rewrite (parseMessageHeader_steps p src) by exact Hlen.
  change headerSize with 7.
  change MT._beginSupportedMessageCode with 100.
  change MT._endSupportedMessageCode with 156.
  destruct (Z.ltb_spec (sizeField src) 7) as [Hs|_]; [lia|].
  destruct (Z.gtb_spec (sizeField src) (maxNegotiatedMessageSize p)) as [Hb|_];
    [lia|].
  destruct (Z.ltb_spec (typeField src) 100) as [Ht|Ht];
    destruct (Z.geb_spec (typeField src) 156) as [Ht'|Ht']; cbn [orb fst];
    split; intros H; try reflexivity; try lia; try discriminate H.
Qed.

Lemma parseMessageHeader_type_guard_witness :
  (* type byte 99 is refused *)
  fst (parseMessageHeader Parser_default [x07; x00; x00; x00; x63; x00; x00])
  = Err (getCannedError UnsupportedMessageType) /\
  (* type byte 113, ROpen, is not *)
  ~ fst (parseMessageHeader Parser_default [x07; x00; x00; x00; x71; x00; x00])
    = Err (getCannedError UnsupportedMessageType).
Proof.
  split.
  - apply (parseMessageHeader_type_guard Parser_default
             [x07; x00; x00; x00; x63; x00; x00]); vm_compute;
      [congruence | split; congruence | left; reflexivity].
  - intros H.
    apply (parseMessageHeader_type_guard Parser_default
             [x07; x00; x00; x00; x71; x00; x00]) in H; vm_compute;
      [ | congruence | split; congruence ].
    vm_compute in H. destruct H as [H|H]; discriminate H.
Defined.

(** C1 as claimed does not hold: a seven-byte buffer with size field 7 and
    type byte 106 (TError), and one with type byte 128 (an unassigned code
    between the two ranges), are both accepted by [parseMessageHeader] on
    the default parser, although the claim puts 106 and 128 among the codes
    that fail with UnsupportedMessageType. *)
Lemma parseMessageHeader_type_guard_counterexample :
  let p := Parser_default in
  let terror := [x07; x00; x00; x00; x6a; x01; x00] in
  let gap := [x07; x00; x00; x00; x80; x01; x00] in
  (7 <= remaining terror /\
   7 <= sizeField terror <= maxNegotiatedMessageSize p /\
   typeField terror = 106 /\
   parseMessageHeader p terror = (Ok (mkHeader 7 106 1), []) /\
   ~ (fst (parseMessageHeader p terror)
        = Err (getCannedError UnsupportedMessageType)
      <-> (typeField terror < 100 \/ 127 < typeField terror < 150
           \/ typeField terror > 155 \/ typeField terror = 106)))
  /\
  (7 <= remaining gap /\
   7 <= sizeField gap <= maxNegotiatedMessageSize p /\
   typeField gap = 128 /\
   parseMessageHeader p gap = (Ok (mkHeader 7 128 1), []) /\
   ~ (fst (parseMessageHeader p gap)
        = Err (getCannedError UnsupportedMessageType)
      <-> (typeField gap < 100 \/ 127 < typeField gap < 150
           \/ typeField gap > 155 \/ typeField gap = 106))).
Proof.
  cbv zeta. split.
  - split; [vm_compute; congruence|].
    split; [vm_compute; split; congruence|].
    split; [reflexivity|].
    split; [reflexivity|].
    intros [_ H].
    assert (E : fst (parseMessageHeader Parser_default
                       [x07; x00; x00; x00; x6a; x01; x00])
                = Err (getCannedError UnsupportedMessageType)).
    { apply H. right. right. right. reflexivity. }
    vm_compute in E. discriminate E.
  - split; [vm_compute; congruence|].
    split; [vm_compute; split; congruence|].
    split; [reflexivity|].
    split; [reflexivity|].
    intros [_ H].
    assert (E : fst (parseMessageHeader Parser_default
                       [x07; x00; x00; x00; x80; x01; x00])
                = Err (getCannedError UnsupportedMessageType)).
    { apply H. right. left. vm_compute. split; reflexivity. }
    vm_compute in E. discriminate E.
Qed.

(* ------------------------------------------------------------------------- *)
(** ** Pre-dispatch checks and dispatch *)

Lemma payloadSize_exact h :
  7 <= messageSize h < u32_modulus -> payloadSize h = messageSize h - 7.
Proof.
  intros H. unfold payloadSize, wrap32. change headerSize with 7.
  apply Z.mod_small. unfold u32_modulus in *. lia.
Qed.

(** Both entry points are the same cascade in front of their switch. *)
Lemma parseRequest_steps p h data :
  parseRequest p h data =
    if messageSize h >? maxNegotiatedMessageSize p then
      Err (getCannedError IllFormedHeader_TooBig)
    else if payloadSize h >? remaining data then
      Err (getCannedError NotEnoughData)
    else if payloadSize h <? remaining data then
      Err (getCannedError MoreThenExpectedData)
    else dispatchRequest (type h) data.
Proof. reflexivity. Qed.

Lemma parseResponse_steps p h data :
  parseResponse p h data =
    if messageSize h >? maxNegotiatedMessageSize p then
      Err (getCannedError IllFormedHeader_TooBig)
    else if payloadSize h >? remaining data then
      Err (getCannedError NotEnoughData)
    else if payloadSize h <? remaining data then
      Err (getCannedError MoreThenExpectedData)
    else dispatchResponse (type h) data.
Proof. reflexivity. Qed.

Ltac pre_dispatch :=
  rewrite ?parseRequest_steps, ?parseResponse_steps;
  repeat match goal with
         | |- context [?a >? ?b] => destruct (Z.gtb_spec a b); try lia
         | |- context [?a <? ?b] => destruct (Z.ltb_spec a b); try lia
         end.

(** C4. Pre-dispatch checks of [parseRequest] and [parseResponse], for every
    header and cursor: a declared size above the negotiated one fails with
    TooBig; otherwise fewer bytes than the payload size fail with
    NotEnoughData; otherwise more bytes than the payload size fail with
    MoreThenExpectedData; and when the bytes left equal the payload size the
    call is the type switch run on the cursor, so only then is a payload
    decoded.  The payload size is [header.payloadSize()], the 32-bit
    [messageSize - 7], which for every header of size 7 or more is the plain
    difference. *)
Theorem parse_pre_dispatch_checks p h data :
  (messageSize h > maxNegotiatedMessageSize p ->
   parseRequest p h data = Err (getCannedError IllFormedHeader_TooBig) /\
   parseResponse p h data = Err (getCannedError IllFormedHeader_TooBig)) /\
  (messageSize h <= maxNegotiatedMessageSize p ->
   remaining data < payloadSize h ->
   parseRequest p h data = Err (getCannedError NotEnoughData) /\
   parseResponse p h data = Err (getCannedError NotEnoughData)) /\
  (messageSize h <= maxNegotiatedMessageSize p ->
   remaining data > payloadSize h ->
   parseRequest p h data = Err (getCannedError MoreThenExpectedData) /\
   parseResponse p h data = Err (getCannedError MoreThenExpectedData)) /\
  (messageSize h <= maxNegotiatedMessageSize p ->
   remaining data = payloadSize h ->
   parseRequest p h data = dispatchRequest (type h) data /\
   parseResponse p h data = dispatchResponse (type h) data) /\
  (7 <= messageSize h < u32_modulus -> payloadSize h = messageSize h - 7).
Proof.
  repeat split; intros; try (pre_dispatch; reflexivity).
  apply payloadSize_exact; assumption.
Qed.

Lemma parse_pre_dispatch_checks_witness :
  let p := mkParser 8192 64 PROTOCOL_VERSION PROTOCOL_VERSION in
  (* 100 declared, 64 negotiated *)
  parseRequest p (mkHeader 100 MT.TClunk 1) [x05; x00; x00; x00]
  = Err (getCannedError IllFormedHeader_TooBig) /\
  (* payload of 4 declared, 3 bytes given *)
  parseRequest p (mkHeader 11 MT.TClunk 1) [x05; x00; x00]
  = Err (getCannedError NotEnoughData) /\
  (* payload of 4 declared, 5 bytes given *)
  parseResponse p (mkHeader 11 MT.RWrite 1) [x05; x00; x00; x00; x00]
  = Err (getCannedError MoreThenExpectedData) /\
  (* payload of 4 declared, 4 bytes given *)
  parseRequest p (mkHeader 11 MT.TClunk 1) [x05; x00; x00; x00]
  = Ok (Request_Clunk 5, []) /\
  payloadSize (mkHeader 11 MT.TClunk 1) = 11 - 7.
Proof.
  cbv zeta.
  destruct (parse_pre_dispatch_checks
              (mkParser 8192 64 PROTOCOL_VERSION PROTOCOL_VERSION)
              (mkHeader 100 MT.TClunk 1) [x05; x00; x00; x00])
    as (Hbig & _).
  destruct (parse_pre_dispatch_checks
              (mkParser 8192 64 PROTOCOL_VERSION PROTOCOL_VERSION)
              (mkHeader 11 MT.TClunk 1) [x05; x00; x00])
    as (_ & Hshort & _).
  destruct (parse_pre_dispatch_checks
              (mkParser 8192 64 PROTOCOL_VERSION PROTOCOL_VERSION)
              (mkHeader 11 MT.RWrite 1) [x05; x00; x00; x00; x00])
    as (_ & _ & Hlong & _).
  destruct (parse_pre_dispatch_checks
              (mkParser 8192 64 PROTOCOL_VERSION PROTOCOL_VERSION)
              (mkHeader 11 MT.TClunk 1) [x05; x00; x00; x00])
    as (_ & _ & _ & Hexact & Hpayload).
  split; [|split; [|split; [|split]]].
  - apply Hbig. vm_compute. reflexivity.
  - apply Hshort; vm_compute; congruence.
  - apply Hlong; vm_compute; congruence.
  - transitivity (dispatchRequest (type (mkHeader 11 MT.TClunk 1))
                    [x05; x00; x00; x00]); [|reflexivity].
    apply Hexact; vm_compute; congruence.
  - apply Hpayload. vm_compute. split; congruence.
Defined.

(** A header whose declared size is below 7 cannot come out of
    [parseMessageHeader].  Handed to the entry points all the same, its
    payload size wraps around in 32 bits, and a cursor of any realistic
    length falls under the NotEnoughData test. *)
Lemma parse_undersized_header p h data :
  0 <= messageSize h < 7 ->
  messageSize h <= maxNegotiatedMessageSize p ->
  remaining data < u32_modulus - 7 ->
  payloadSize h = messageSize h - 7 + u32_modulus /\
  parseRequest p h data = Err (getCannedError NotEnoughData) /\
  parseResponse p h data = Err (getCannedError NotEnoughData).
Proof.
  intros Hs Hneg Hrem.
  assert (E : payloadSize h = messageSize h - 7 + u32_modulus).
  { unfold payloadSize, wrap32. change headerSize with 7.
    unfold u32_modulus in *.
    rewrite <- (Z_mod_plus_full (messageSize h - 7) 1 (2 ^ 32)).
    rewrite Z.mul_1_l. apply Z.mod_small. lia. }
  split; [exact E|].
  rewrite parseRequest_steps, parseResponse_steps, E.
  destruct (Z.gtb_spec (messageSize h) (maxNegotiatedMessageSize p)); [lia|].
  destruct (Z.gtb_spec (messageSize h - 7 + u32_modulus) (remaining data));
    [|lia].
  split; reflexivity.
Qed.

(** The primitive reads either fail or succeed; they store through no
    subscript. *)
Lemma readBytes_cases n src :
  (exists e, readBytes n src = Err e) \/
  readBytes n src = Ok (firstn n src, skipn n src).
Proof.
  unfold readBytes. destruct (length src <? n)%nat; eauto.
Qed.

Lemma readLE_cases w src :
  (exists e, readLE w src = Err e) \/
  readLE w src = Ok (le_value (firstn w src), skipn w src).
Proof.
  unfold readLE, bind, ret.
  destruct (readBytes_cases w src) as [[e He]|He]; rewrite He; eauto.
Qed.

Lemma read_blob_cases src :
  (exists e, read_blob src = Err e) \/ (exists d rest, read_blob src = Ok (d, rest)).
Proof.
  unfold read_blob, bind, read_u32.
  destruct (readLE_cases 4 src) as [[e He]|He]; rewrite He; [eauto|].
  destruct (readBytes_cases (Z.to_nat (le_value (firstn 4 src))) (skipn 4 src))
    as [[e He']|He']; rewrite He'; eauto.
Qed.

Lemma readBytes_enough n src :
  (n <= length src)%nat -> readBytes n src = Ok (firstn n src, skipn n src).
Proof.
  intros H. unfold readBytes.
  destruct (Nat.ltb_spec (length src) n); [lia|reflexivity].
Qed.

Lemma read_u32_enough src :
  4 <= remaining src -> read_u32 src = Ok (leadingU32 src, skipn 4 src).
Proof.
  intros H. unfold read_u32, readLE, bind, ret, leadingU32.
  rewrite readBytes_enough by (unfold remaining in H; lia). reflexivity.
Qed.

Lemma read_blob_enough src :
  4 <= remaining src ->
  leadingU32 src <= remaining src - 4 ->
  read_blob src
  = Ok (firstn (Z.to_nat (leadingU32 src)) (skipn 4 src),
        skipn (Z.to_nat (leadingU32 src)) (skipn 4 src)).
Proof.
  intros H4 Hlen. unfold read_blob, bind.
  rewrite read_u32_enough by exact H4.
  apply readBytes_enough. rewrite length_skipn. unfold remaining in *. lia.
Qed.

(** C8. The Erlang-extension replies reuse the base decoders: the switch of
    [parseResponse] sends RSRead (153) to the decoder of RRead (117) and
    RSWrite (155) to the decoder of RWrite (119); for every frame the call
    with type RSRead returns what the call with type RRead returns, and a
    decoded message is the [Response::Read] variant; likewise RSWrite, RWrite
    and [Response::Write].  The frames are decoded: an RSRead frame past the
    pre-dispatch checks whose payload is a 32-bit length and at least that
    many bytes yields [Response::Read] with exactly those bytes, and an
    RSWrite frame whose payload starts with a 32-bit count yields
    [Response::Write] with that count. *)
Theorem parseResponse_short_read_write_alias p size tg data :
  MT.RSRead = 153 /\ MT.RRead = 117 /\ MT.RSWrite = 155 /\ MT.RWrite = 119 /\
  dispatchResponse MT.RSRead = parseReadResponse /\
  dispatchResponse MT.RRead = parseReadResponse /\
  dispatchResponse MT.RSWrite = parseWriteResponse /\
  dispatchResponse MT.RWrite = parseWriteResponse /\
  parseResponse p (mkHeader size MT.RSRead tg) data
  = parseResponse p (mkHeader size MT.RRead tg) data /\
  parseResponse p (mkHeader size MT.RSWrite tg) data
  = parseResponse p (mkHeader size MT.RWrite tg) data /\
  ((exists e, parseResponse p (mkHeader size MT.RSRead tg) data = Err e) \/
   (exists d rest, parseResponse p (mkHeader size MT.RSRead tg) data
                   = Ok (Response_Read d, rest))) /\
  ((exists e, parseResponse p (mkHeader size MT.RSWrite tg) data = Err e) \/
   (exists c rest, parseResponse p (mkHeader size MT.RSWrite tg) data
                   = Ok (Response_Write c, rest))) /\
  (size <= maxNegotiatedMessageSize p ->
   remaining data = payloadSize (mkHeader size MT.RSRead tg) ->
   4 <= remaining data ->
   leadingU32 data <= remaining data - 4 ->
   parseResponse p (mkHeader size MT.RSRead tg) data
   = Ok (Response_Read (firstn (Z.to_nat (leadingU32 data)) (skipn 4 data)),
         skipn (Z.to_nat (leadingU32 data)) (skipn 4 data))) /\
  (size <= maxNegotiatedMessageSize p ->
   remaining data = payloadSize (mkHeader size MT.RSWrite tg) ->
   4 <= remaining data ->
   parseResponse p (mkHeader size MT.RSWrite tg) data
   = Ok (Response_Write (leadingU32 data), skipn 4 data)).
Proof.
  do 10 (split; [reflexivity|]).
  assert (Halt :
            ((exists e, parseResponse p (mkHeader size MT.RSRead tg) data = Err e)
             \/ (exists d rest, parseResponse p (mkHeader size MT.RSRead tg) data
                                = Ok (Response_Read d, rest))) /\
            ((exists e, parseResponse p (mkHeader size MT.RSWrite tg) data = Err e)
             \/ (exists c rest, parseResponse p (mkHeader size MT.RSWrite tg) data
                                = Ok (Response_Write c, rest)))).
  { rewrite !parseResponse_steps. unfold payloadSize. cbn [messageSize type].
    change (dispatchResponse MT.RSRead) with parseReadResponse.
    change (dispatchResponse MT.RSWrite) with parseWriteResponse.
    destruct (size >? maxNegotiatedMessageSize p); [split; left; eauto|].
    destruct (wrap32 (size - headerSize) >? remaining data);
      [split; left; eauto|].
    destruct (wrap32 (size - headerSize) <? remaining data);
      [split; left; eauto|].
    split.
    - unfold parseReadResponse, andThen, bind, ret.
      destruct (read_blob_cases data) as [[e He]|[d [rest He]]]; rewrite He; eauto.
    - unfold parseWriteResponse, andThen, bind, ret, read_u32.
      destruct (readLE_cases 4 data) as [[e He]|He]; rewrite He; eauto. }
  destruct Halt as [Hread Hwrite].
  split; [exact Hread|]. split; [exact Hwrite|]. split.
  - intros Hsize Hrem H4 Hblob.
    rewrite parseResponse_steps, <- Hrem. cbn [messageSize type].
    destruct (Z.gtb_spec size (maxNegotiatedMessageSize p)); [lia|].
    rewrite Z.gtb_ltb, Z.ltb_irrefl.
    change (dispatchResponse MT.RSRead) with parseReadResponse.
    unfold parseReadResponse, andThen, bind, ret.
    rewrite read_blob_enough by assumption. reflexivity.
  - intros Hsize Hrem H4.
    rewrite parseResponse_steps, <- Hrem. cbn [messageSize type].
    destruct (Z.gtb_spec size (maxNegotiatedMessageSize p)); [lia|].
    rewrite Z.gtb_ltb, Z.ltb_irrefl.
    change (dispatchResponse MT.RSWrite) with parseWriteResponse.
    unfold parseWriteResponse, andThen, bind, ret.
    rewrite read_u32_enough by assumption. reflexivity.
Qed.

(** An RSRead frame carrying the three bytes [61 62 63] and an RSWrite frame
    reporting a count of 9, each decoded into the base variant. *)
Lemma parseResponse_short_read_write_alias_witness :
  parseResponse Parser_default (mkHeader 14 MT.RSRead 1)
    [x03; x00; x00; x00; x61; x62; x63]
  = Ok (Response_Read [x61; x62; x63], []) /\
  parseResponse Parser_default (mkHeader 11 MT.RSWrite 1) [x09; x00; x00; x00]
  = Ok (Response_Write 9, []).
Proof.
  destruct (parseResponse_short_read_write_alias Parser_default 14 1
              [x03; x00; x00; x00; x61; x62; x63])
    as (_ & _ & _ & _ & _ & _ & _ & _ & _ & _ & _ & _ & Hread & _).
  destruct (parseResponse_short_read_write_alias Parser_default 11 1
              [x09; x00; x00; x00])
    as (_ & _ & _ & _ & _ & _ & _ & _ & _ & _ & _ & _ & _ & Hwrite).
  split.
  - apply Hread; vm_compute; congruence.
  - apply Hwrite; vm_compute; congruence.
Defined.

(** An RSRead frame carrying the three bytes [61 62 63], and an RSWrite frame
    reporting a count of 9. *)
Example parseResponse_short_read_write_run :
  parseResponse Parser_default (mkHeader 14 MT.RSRead 1)
    [x03; x00; x00; x00; x61; x62; x63]
  = Ok (Response_Read [x61; x62; x63], []) /\
  parseResponse Parser_default (mkHeader 11 MT.RSWrite 1) [x09; x00; x00; x00]
  = Ok (Response_Write 9, []).
Proof. split; reflexivity. Qed.

Lemma odd_between t lo hi :
  lo <= t <= hi -> Z.odd t = true -> exists k, t = 2 * k + 1 /\ lo <= 2 * k + 1 <= hi.
Proof.
  intros Hr Ho. apply Z.odd_spec in Ho. destruct Ho as [k Hk].
  exists k. lia.
Qed.

Lemma even_between t lo hi :
  lo <= t <= hi -> Z.even t = true -> exists k, t = 2 * k /\ lo <= 2 * k <= hi.
Proof.
  intros Hr He. apply Z.even_spec in He. destruct He as [k Hk].
  exists k. lia.
Qed.

(** The response codes, one by one. *)
Lemma response_code_cases t :
  (101 <= t <= 127 /\ Z.odd t = true) \/ t = 151 \/ t = 153 \/ t = 155 ->
  In t [101; 103; 105; 107; 109; 111; 113; 115; 117; 119; 121; 123; 125; 127;
        151; 153; 155].
Proof.
  intros [[Hr Ho]|H].
  - destruct (odd_between t 101 127 Hr Ho) as [k [-> Hk]].
    assert (Hc : k = 50 \/ k = 51 \/ k = 52 \/ k = 53 \/ k = 54 \/ k = 55 \/
                 k = 56 \/ k = 57 \/ k = 58 \/ k = 59 \/ k = 60 \/ k = 61 \/
                 k = 62 \/ k = 63) by lia.
    repeat (destruct Hc as [->|Hc]; [simpl; tauto|]). subst k. simpl. tauto.
  - simpl. intuition lia.
Qed.

(** The request codes, one by one (106, TError, is among the even ones). *)
Lemma request_code_cases t :
  (100 <= t <= 126 /\ Z.even t = true) \/ t = 150 \/ t = 152 \/ t = 154 ->
  In t [100; 102; 104; 106; 108; 110; 112; 114; 116; 118; 120; 122; 124; 126;
        150; 152; 154].
Proof.
  intros [[Hr He]|H].
  - destruct (even_between t 100 126 Hr He) as [k [-> Hk]].
    assert (Hc : k = 50 \/ k = 51 \/ k = 52 \/ k = 53 \/ k = 54 \/ k = 55 \/
                 k = 56 \/ k = 57 \/ k = 58 \/ k = 59 \/ k = 60 \/ k = 61 \/
                 k = 62 \/ k = 63) by lia.
    repeat (destruct Hc as [->|Hc]; [simpl; tauto|]). subst k. simpl. tauto.
  - simpl. intuition lia.
Qed.

Lemma dispatchRequest_rejects t data :
  In t [101; 103; 105; 107; 109; 111; 113; 115; 117; 119; 121; 123; 125; 127;
        151; 153; 155] \/ t = 106 ->
  dispatchRequest t data = Err (getCannedError UnsupportedMessageType).
Proof.
  intros [H| ->]; [|reflexivity]. simpl in H.
  repeat (destruct H as [<-|H]; [reflexivity|]). contradiction.
Qed.

Lemma dispatchResponse_rejects t data :
  In t [100; 102; 104; 106; 108; 110; 112; 114; 116; 118; 120; 122; 124; 126;
        150; 152; 154] ->
  dispatchResponse t data = Err (getCannedError UnsupportedMessageType).
Proof.
  intros H. simpl in H.
  repeat (destruct H as [<-|H]; [reflexivity|]). contradiction.
Qed.

(** C10. The two entry points refuse each other's codes.  For every header
    that passes the pre-dispatch checks (declared size within the negotiated
    one, bytes left equal to the payload size): [parseRequest] returns
    UnsupportedMessageType when the type is a response code (odd, 101 to
    127, or 151, 153, 155) or TError (106); [parseResponse] returns
    UnsupportedMessageType when the type is a request code (even, 100 to
    126, or 150, 152, 154), TError among them.  Every one of these codes is
    accepted by [parseMessageHeader] on a buffer of seven bytes or more with
    a size field between 7 and the negotiated size. *)
Theorem parse_rejects_other_direction p h data :
  messageSize h <= maxNegotiatedMessageSize p ->
  remaining data = payloadSize h ->
  (((101 <= type h <= 127 /\ Z.odd (type h) = true)
    \/ type h = 151 \/ type h = 153 \/ type h = 155) \/ type h = 106 ->
   parseRequest p h data = Err (getCannedError UnsupportedMessageType)) /\
  (((100 <= type h <= 126 /\ Z.even (type h) = true)
    \/ type h = 150 \/ type h = 152 \/ type h = 154) \/ type h = 106 ->
   parseResponse p h data = Err (getCannedError UnsupportedMessageType)) /\
  (forall src,
     7 <= remaining src ->
     7 <= sizeField src <= maxNegotiatedMessageSize p ->
     typeField src = type h ->
     100 <= type h <= 127 \/ 150 <= type h <= 155 ->
     fst (parseMessageHeader p src)
     = Ok (mkHeader (sizeField src) (type h) (tagField src))).
Proof.
  intros Hsize Hrem. split; [|split].
  - intros Hcode. pre_dispatch.
    apply dispatchRequest_rejects.
    destruct Hcode as [Hcode|Hcode].
    + left. apply response_code_cases. exact Hcode.
    + right. exact Hcode.
  - intros Hcode. pre_dispatch.
    apply dispatchResponse_rejects.
    destruct Hcode as [Hcode|Hcode].
    + apply request_code_cases in Hcode. exact Hcode.
    + rewrite Hcode. simpl. tauto.
  - intros src Hlen Hsz Hty Hrange.
    rewrite (parseMessageHeader_steps p src) by exact Hlen.
    change headerSize with 7.
    change MT._beginSupportedMessageCode with 100.
    change MT._endSupportedMessageCode with 156.
    rewrite Hty.
    destruct (Z.ltb_spec (sizeField src) 7); [lia|].
    destruct (Z.gtb_spec (sizeField src) (maxNegotiatedMessageSize p)); [lia|].
    destruct (Z.ltb_spec (type h) 100); [lia|].
    destruct (Z.geb_spec (type h) 156); [lia|].
    reflexivity.
Qed.

(** An RWalk header handed to [parseRequest], a TWalk header handed to
    [parseResponse], and TError handed to both; the same codes pass the
    header parse. *)
Lemma parse_rejects_other_direction_witness :
  parseRequest Parser_default (mkHeader 7 MT.RWalk 1) []
  = Err (getCannedError UnsupportedMessageType) /\
  parseResponse Parser_default (mkHeader 7 MT.TWalk 1) []
  = Err (getCannedError UnsupportedMessageType) /\
  parseRequest Parser_default (mkHeader 7 MT.TError 1) []
  = Err (getCannedError UnsupportedMessageType) /\
  parseResponse Parser_default (mkHeader 7 MT.TError 1) []
  = Err (getCannedError UnsupportedMessageType) /\
  fst (parseMessageHeader Parser_default [x07; x00; x00; x00; x6a; x01; x00])
  = Ok (mkHeader 7 MT.TError 1).
Proof.
  destruct (parse_rejects_other_direction Parser_default
              (mkHeader 7 MT.RWalk 1) []) as (Hreq & _ & _);
    [vm_compute; congruence | reflexivity |].
  destruct (parse_rejects_other_direction Parser_default
              (mkHeader 7 MT.TWalk 1) []) as (_ & Hresp & _);
    [vm_compute; congruence | reflexivity |].
  destruct (parse_rejects_other_direction Parser_default
              (mkHeader 7 MT.TError 1) []) as (Hreq' & Hresp' & Hhdr);
    [vm_compute; congruence | reflexivity |].
  split; [|split; [|split; [|split]]].
  - apply Hreq. left. left. split; [vm_compute; split; congruence|reflexivity].
  - apply Hresp. left. left. split; [vm_compute; split; congruence|reflexivity].
  - apply Hreq'. right. reflexivity.
  - apply Hresp'. right. reflexivity.
  - apply (Hhdr [x07; x00; x00; x00; x6a; x01; x00]);
      [vm_compute; congruence | vm_compute; split; congruence | reflexivity
      | left; vm_compute; split; congruence].
Defined.

(* ------------------------------------------------------------------------- *)
(** ** The walk reply *)

Lemma list_update_length {A} (l : list A) i v :
  length (list_update l i v) = length l.
Proof.
  revert i. induction l as [|x l IH]; intros [|i]; simpl; auto.
Qed.

Lemma read_qid_enough src :
  13 <= remaining src -> exists q, read_qid src = Ok (q, skipn 13 src).
Proof.
  intros H.
  do 13 (destruct src as [|? src]; [unfold remaining in H; simpl in H; lia|]).
  eexists. reflexivity.
Qed.

Lemma read_qid_short src :
  remaining src < 13 -> read_qid src = Err (getCannedError NotEnoughData).
Proof.
  intros H.
  do 13 (destruct src as [|? src]; [reflexivity|]).
  unfold remaining in H. simpl in H. lia.
Qed.

Lemma slot_ref_inside {A} (slots : list A) i :
  0 <= i < Z.of_nat (length slots) -> slot_ref slots i = Ok (Z.to_nat i).
Proof.
  intros H. unfold slot_ref.
  destruct (Z.leb_spec 0 i); [|lia].
  destruct (Z.ltb_spec i (Z.of_nat (length slots))); [|lia].
  reflexivity.
Qed.

Lemma slot_ref_outside {A} (slots : list A) i :
  Z.of_nat (length slots) <= i ->
  slot_ref slots i = Undefined (StoreOutOfBounds i (Z.of_nat (length slots))).
Proof.
  intros H. unfold slot_ref.
  destruct (Z.ltb_spec i (Z.of_nat (length slots))); [lia|].
  rewrite andb_false_r. reflexivity.
Qed.

(** The loop runs off the end of the array as soon as the announced count
    passes the extent and the buffer holds the Qids for the slots before
    slot 16. *)
Lemma parseWalkResponse_loop_overrun todo :
  forall i slots src,
    length slots = Walk_extent ->
    0 <= i <= 16 ->
    16 < i + Z.of_nat todo ->
    13 * (16 - i) <= remaining src ->
    parseWalkResponse_loop todo i slots src = Undefined (StoreOutOfBounds 16 16).
Proof.
  induction todo as [|todo IH]; intros i slots src Hlen Hi Hcount Hdata.
  - lia.
  - cbn [parseWalkResponse_loop]. unfold bind, read_qid_into.
    destruct (Z.eq_dec i 16) as [->|Hne].
    + rewrite slot_ref_outside by (rewrite Hlen; unfold Walk_extent; lia).
      rewrite Hlen. reflexivity.
    + rewrite slot_ref_inside by (rewrite Hlen; unfold Walk_extent; lia).
      destruct (read_qid_enough src) as [q Hq]; [lia|]. rewrite Hq.
      apply IH.
      * rewrite list_update_length. exact Hlen.
      * lia.
      * lia.
      * rewrite (remaining_skipn 13) by (simpl; lia). simpl Z.of_nat. lia.
Qed.

(** With too few bytes for the Qids that fit, the loop ends on a failed
    read before it reaches the end of the array. *)
Lemma parseWalkResponse_loop_short todo :
  forall i slots src,
    length slots = Walk_extent ->
    0 <= i <= 16 ->
    remaining src < 13 * Z.min (Z.of_nat todo) (16 - i) ->
    parseWalkResponse_loop todo i slots src = Err (getCannedError NotEnoughData).
Proof.
  induction todo as [|todo IH]; intros i slots src Hlen Hi Hdata.
  - pose proof (remaining_nonneg src). simpl Z.of_nat in Hdata. lia.
  - pose proof (remaining_nonneg src) as Hnn.
    assert (Hi' : i < 16) by lia.
    cbn [parseWalkResponse_loop]. unfold bind, read_qid_into.
    rewrite slot_ref_inside by (rewrite Hlen; unfold Walk_extent; lia).
    destruct (Z_lt_ge_dec (remaining src) 13) as [Hshort|Hlong].
    + rewrite read_qid_short by exact Hshort. reflexivity.
    + destruct (read_qid_enough src) as [q Hq]; [lia|]. rewrite Hq.
      apply IH.
      * rewrite list_update_length. exact Hlen.
      * lia.
      * rewrite (remaining_skipn 13) by (simpl; lia). simpl Z.of_nat. lia.
Qed.

(** A count within the extent never takes the loop outside the array. *)
Lemma parseWalkResponse_loop_inside todo :
  forall i slots src,
    length slots = Walk_extent ->
    0 <= i ->
    i + Z.of_nat todo <= 16 ->
    (exists e, parseWalkResponse_loop todo i slots src = Err e) \/
    (exists slots' rest,
        parseWalkResponse_loop todo i slots src = Ok (slots', rest) /\
        length slots' = Walk_extent).
Proof.
  induction todo as [|todo IH]; intros i slots src Hlen Hi Hcount.
  - right. exists slots, src. split; [reflexivity|exact Hlen].
  - cbn [parseWalkResponse_loop]. unfold bind, read_qid_into.
    rewrite slot_ref_inside by (rewrite Hlen; unfold Walk_extent; lia).
    destruct (Z_lt_ge_dec (remaining src) 13) as [Hshort|Hlong].
    + rewrite read_qid_short by exact Hshort. left. eauto.
    + destruct (read_qid_enough src) as [q Hq]; [lia|]. rewrite Hq.
      apply IH; [rewrite list_update_length; exact Hlen | lia | lia].
Qed.

Lemma read_u16_enough src :
  2 <= remaining src -> read_u16 src = Ok (le_value (firstn 2 src), skipn 2 src).
Proof.
  intros H.
  do 2 (destruct src as [|? src]; [unfold remaining in H; simpl in H; lia|]).
  reflexivity.
Qed.

(** What [parseWalkResponse] does with a count above 16, by the bytes that
    follow the count: with the sixteen Qids that fit, the loop goes on to
    slot 16; with fewer, a read fails first. *)
Lemma parseWalkResponse_above_extent data :
  2 <= remaining data ->
  16 < nqidsField data ->
  (13 * 16 <= remaining data - 2 ->
   parseWalkResponse data = Undefined (StoreOutOfBounds 16 16)) /\
  (remaining data - 2 < 13 * 16 ->
   parseWalkResponse data = Err (getCannedError NotEnoughData)).
Proof.
  intros Hlen Hn. unfold parseWalkResponse, bind.
  rewrite read_u16_enough by exact Hlen. fold (nqidsField data).
  assert (Hrest : remaining (skipn 2 data) = remaining data - 2)
    by (apply (remaining_skipn 2); simpl; lia).
  split; intros Hdata.
  - rewrite parseWalkResponse_loop_overrun;
      [reflexivity | reflexivity | lia | lia | lia].
  - rewrite parseWalkResponse_loop_short;
      [reflexivity | reflexivity | lia | lia].
Qed.

(** C2, what the code does. For every RWalk frame that passes the
    pre-dispatch checks, announces more than 16 Qids and carries at least
    seventeen of them, [parseResponse] does not reject the frame: its loop
    decodes the seventeenth Qid and stores it through [qids[16]], one slot
    past the end of the sixteen-element array. *)
Theorem parseResponse_walk_overrun p h data :
  type h = MT.RWalk ->
  messageSize h <= maxNegotiatedMessageSize p ->
  remaining data = payloadSize h ->
  16 < nqidsField data ->
  2 + 13 * 17 <= remaining data ->
  parseResponse p h data = Undefined (StoreOutOfBounds 16 16) /\
  isErr (parseResponse p h data) = false.
Proof.
  intros Hty Hsize Hrem Hn Hdata.
  assert (E : parseResponse p h data = Undefined (StoreOutOfBounds 16 16)).
  { pre_dispatch. rewrite Hty.
    change (dispatchResponse MT.RWalk) with parseWalkResponse.
    apply parseWalkResponse_above_extent; lia. }
  rewrite E. split; reflexivity.
Qed.

(** The failing frame: size 230, type RWalk, a count of 17 and 221 bytes of
    Qids, well within the default 8192. *)
Lemma parseResponse_walk_overrun_witness :
  parseResponse Parser_default (mkHeader 230 MT.RWalk 1)
    (x11 :: x00 :: repeat x00 221)
  = Undefined (StoreOutOfBounds 16 16).
Proof.
  apply (parseResponse_walk_overrun Parser_default (mkHeader 230 MT.RWalk 1)
           (x11 :: x00 :: repeat x00 221));
    vm_compute; congruence.
Defined.

Lemma parseWalkResponse_within_extent data :
  2 <= remaining data ->
  nqidsField data <= 16 ->
  (exists e, parseWalkResponse data = Err e) \/
  (exists slots rest,
      parseWalkResponse data
      = Ok (Response_Walk_ (mkWalk (nqidsField data) slots), rest) /\
      length slots = Walk_extent).
Proof.
  intros Hlen Hn. unfold parseWalkResponse, bind.
  rewrite read_u16_enough by exact Hlen. fold (nqidsField data).
  assert (H0 : 0 <= nqidsField data) by apply le_value_range.
  destruct (parseWalkResponse_loop_inside (Z.to_nat (nqidsField data)) 0
              Walk_fresh_slots (skipn 2 data))
    as [[e He]|[slots [rest [He Hl]]]]; try reflexivity; try lia.
  - rewrite He. left. eauto.
  - rewrite He. right. exists slots, rest. split; [reflexivity|exact Hl].
Qed.

(* ------------------------------------------------------------------------- *)
(** ** Negotiated message size *)

(** In range, the setter returns and stores the requested size, which is
    the minimum. *)
Lemma maxNegotiatedMessageSize_set_in_range p x :
  maxPossibleMessageSize p + 1 < u32_modulus ->
  0 <= x <= maxPossibleMessageSize p ->
  maxNegotiatedMessageSize_set p x
  = Returned (Z.min x (maxPossibleMessageSize p),
              mkParser (_maxMassageSize p) (Z.min x (maxPossibleMessageSize p))
                       (_initialVersion p) (_negotiatedVersion p))
  /\ Z.min x (maxPossibleMessageSize p) = x.
Proof.
  intros Hcap Hx. unfold maxNegotiatedMessageSize_set, assertIndexInRange, wrap32.
  rewrite Z.mod_small by lia.
  destruct (Z.geb_spec x (maxPossibleMessageSize p + 1)); [lia|].
  destruct (Z.ltb_spec x 0); [lia|].
  cbn [orb]. split; [reflexivity|lia].
Qed.

(** However a call ends, the configured size is untouched and the
    negotiated size stays at or below it. *)
Lemma maxNegotiatedMessageSize_set_keeps_cap p x :
  maxNegotiatedMessageSize p <= maxPossibleMessageSize p ->
  let p' := parser_after p (maxNegotiatedMessageSize_set p x) in
  maxPossibleMessageSize p' = maxPossibleMessageSize p /\
  maxNegotiatedMessageSize p' <= maxPossibleMessageSize p'.
Proof.
  intros Hinv. unfold maxNegotiatedMessageSize_set.
  destruct (assertIndexInRange x 0 (wrap32 (maxPossibleMessageSize p + 1)));
    cbn [parser_after].
  - unfold maxPossibleMessageSize, maxNegotiatedMessageSize.
    cbn [_maxMassageSize _maxNegotiatedMessageSize]. split; [reflexivity|lia].
  - split; [reflexivity|exact Hinv].
Qed.

Lemma negotiate_all_keeps_cap xs :
  forall p,
    maxNegotiatedMessageSize p <= maxPossibleMessageSize p ->
    maxPossibleMessageSize (negotiate_all p xs) = maxPossibleMessageSize p /\
    maxNegotiatedMessageSize (negotiate_all p xs)
    <= maxPossibleMessageSize (negotiate_all p xs).
Proof.
  induction xs as [|x xs IH]; intros p Hinv.
  - split; [reflexivity|exact Hinv].
  - cbn [negotiate_all fold_left].
    destruct (maxNegotiatedMessageSize_set_keeps_cap p x Hinv) as [Hcap Hinv'].
    destruct (IH _ Hinv') as [Hcap' Hinv''].
    unfold negotiate_all in *. split; [congruence|exact Hinv''].
Qed.

(** A parser configured with the largest [size_type]: the bound of the
    assertion, [maxPossibleMessageSize() + 1], wraps to 0 and the range is
    empty, so every call raises. *)
Lemma maxNegotiatedMessageSize_set_cap_wraps p x :
  maxPossibleMessageSize p = u32_modulus - 1 ->
  0 <= x ->
  maxNegotiatedMessageSize_set p x = Raised_IndexOutOfRange x 0 0.
Proof.
  intros Hcap Hx. unfold maxNegotiatedMessageSize_set, assertIndexInRange.
  rewrite Hcap. change (wrap32 (u32_modulus - 1 + 1)) with 0.
  destruct (Z.geb_spec x 0); [|lia]. reflexivity.
Qed.

(** C3, what the code does. The setter asserts that the requested size lies
    below [maxPossibleMessageSize() + 1] before it takes the minimum.  For
    every requested size above the configured one the assertion raises: the
    call does not return [min(x, configured)] and stores nothing, the
    negotiated size stays what it was. *)
Theorem maxNegotiatedMessageSize_set_above_cap p x :
  0 <= maxPossibleMessageSize p ->
  maxPossibleMessageSize p + 1 < u32_modulus ->
  maxPossibleMessageSize p < x ->
  maxNegotiatedMessageSize_set p x
  = Raised_IndexOutOfRange x 0 (maxPossibleMessageSize p + 1) /\
  maxNegotiatedMessageSize_set p x
  <> Returned (Z.min x (maxPossibleMessageSize p),
               mkParser (_maxMassageSize p) (Z.min x (maxPossibleMessageSize p))
                        (_initialVersion p) (_negotiatedVersion p)) /\
  parser_after p (maxNegotiatedMessageSize_set p x) = p.
Proof.
  intros H0 Hcap Hx.
  assert (E : maxNegotiatedMessageSize_set p x
              = Raised_IndexOutOfRange x 0 (maxPossibleMessageSize p + 1)).
  { unfold maxNegotiatedMessageSize_set, assertIndexInRange, wrap32.
    rewrite Z.mod_small by lia.
    destruct (Z.geb_spec x (maxPossibleMessageSize p + 1)); [|lia].
    reflexivity. }
  rewrite E. split; [reflexivity|]. split; [discriminate|reflexivity].
Qed.

(** The default parser asked for 8193. *)
Lemma maxNegotiatedMessageSize_set_above_cap_witness :
  maxNegotiatedMessageSize_set Parser_default 8193
  = Raised_IndexOutOfRange 8193 0 8193 /\
  maxNegotiatedMessageSize_set Parser_default 8193
  <> Returned (8192, Parser_default).
Proof.
  destruct (maxNegotiatedMessageSize_set_above_cap Parser_default 8193)
    as (Hraise & Hnot & _); try (vm_compute; congruence).
  split; [exact Hraise | exact Hnot].
Defined.

(** C9. Defaults: the library's maximum message size is 8192; a parser built
    with the default arguments has its configured and its negotiated size at
    8192 and its negotiated version at 9P2000.e; the fallback version string
    is unknown. *)
Theorem Parser_defaults :
  kMaxMesssageSize = 8192 /\
  maxPossibleMessageSize Parser_default = 8192 /\
  maxNegotiatedMessageSize Parser_default = 8192 /\
  getNegotiatedVersion Parser_default = "9P2000.e"%string /\
  PROTOCOL_VERSION = "9P2000.e"%string /\
  UNKNOWN_PROTOCOL_VERSION = "unknown"%string.
Proof.
  repeat split.
Qed.

(* ========================================================================= *)
(** * Further properties of the frame validator *)

Lemma tagField_u16 src : 0 <= tagField src < 65536.
Proof.
  unfold tagField.
  pose proof (le_value_range (firstn 2 (skipn 5 src))) as H.
  assert (Hl : (length (firstn 2 (skipn 5 src)) <= 2)%nat) by apply firstn_le_length.
  assert (256 ^ Z.of_nat (length (firstn 2 (skipn 5 src))) <= 256 ^ 2)
    by (apply Z.pow_le_mono_r; lia).
  change 65536 with (256 ^ 2). lia.
Qed.

Lemma parseMessageHeader_short_buffer_eq p src :
  remaining src < 7 ->
  parseMessageHeader p src = (Err (getCannedError IllFormedHeader), src).
Proof.
  intros H. unfold parseMessageHeader.
  destruct (Z.ltb_spec (remaining src) headerSize) as [_|Hge];
    [reflexivity | change headerSize with 7 in Hge; lia].
Qed.

(** With seven bytes or more the header parse ends in exactly one of four
    ways, told apart by the size field and the type byte. *)
Lemma parseMessageHeader_cases p src :
  7 <= remaining src ->
  (sizeField src < 7 /\
   parseMessageHeader p src
   = (Err (getCannedError IllFormedHeader_FrameTooShort), skipn 4 src)) \/
  (7 <= sizeField src /\ sizeField src > maxNegotiatedMessageSize p /\
   parseMessageHeader p src
   = (Err (getCannedError IllFormedHeader_TooBig), skipn 4 src)) \/
  (7 <= sizeField src <= maxNegotiatedMessageSize p /\
   (typeField src < 100 \/ 155 < typeField src) /\
   parseMessageHeader p src
   = (Err (getCannedError UnsupportedMessageType), skipn 5 src)) \/
  (7 <= sizeField src <= maxNegotiatedMessageSize p /\
   100 <= typeField src <= 155 /\
   parseMessageHeader p src
   = (Ok (mkHeader (sizeField src) (typeField src) (tagField src)),
      skipn 7 src)).
Proof.
  intros Hlen. rewrite (parseMessageHeader_steps p src) by exact Hlen.
  change headerSize with 7.
  change MT._beginSupportedMessageCode with 100.
  change MT._endSupportedMessageCode with 156.
  destruct (Z.ltb_spec (sizeField src) 7); [left; split; [lia|reflexivity]|].
  destruct (Z.gtb_spec (sizeField src) (maxNegotiatedMessageSize p));
    [right; left; split; [lia|split; [lia|reflexivity]]|].
  destruct (Z.ltb_spec (typeField src) 100);
    [right; right; left; cbn [orb]; split; [lia|split; [lia|reflexivity]]|].
  destruct (Z.geb_spec (typeField src) 156); cbn [orb].
  - right; right; left. split; [lia|split; [lia|reflexivity]].
  - right; right; right. split; [lia|split; [lia|reflexivity]].
Qed.

(** What a successful header parse tells about the buffer and the header. *)
Lemma parseMessageHeader_ok_inv p src h rest :
  parseMessageHeader p src = (Ok h, rest) ->
  7 <= remaining src /\
  rest = skipn 7 src /\
  h = mkHeader (sizeField src) (typeField src) (tagField src) /\
  7 <= messageSize h <= maxNegotiatedMessageSize p /\
  messageSize h < u32_modulus /\
  100 <= type h <= 155 /\
  0 <= tag h < 65536 /\
  payloadSize h = messageSize h - 7.
Proof.
  intros H.
  destruct (Z_lt_ge_dec (remaining src) 7) as [Hshort|Hlong].
  - rewrite parseMessageHeader_short_buffer_eq in H by exact Hshort.
    discriminate H.
  - destruct (parseMessageHeader_cases p src) as [[_ E]|[[_ [_ E]]|[[_ [_ E]]|[Hs [Ht E]]]]];
      try lia; rewrite E in H; try discriminate H.
    injection H as <- <-. cbn [messageSize type tag].
    pose proof (sizeField_u32 src) as Hu. unfold is_u32 in Hu.
    pose proof (tagField_u16 src).
    repeat split; try lia.
    apply payloadSize_exact. cbn [messageSize]. lia.
Qed.

(** X1. Every header [parseMessageHeader] returns is well formed: its size
    lies between 7 and the negotiated size (and is a 32-bit value), its type
    byte between 100 and 155, its tag is a 16-bit value, its payload size is
    the plain [size - 7], the buffer held at least seven bytes and the cursor
    stands exactly seven bytes further. *)
Theorem parseMessageHeader_ok_header p src h rest :
  parseMessageHeader p src = (Ok h, rest) ->
  7 <= remaining src /\
  rest = skipn 7 src /\
  h = mkHeader (sizeField src) (typeField src) (tagField src) /\
  7 <= messageSize h <= maxNegotiatedMessageSize p /\
  messageSize h < u32_modulus /\
  100 <= type h <= 155 /\
  0 <= tag h < 65536 /\
  payloadSize h = messageSize h - 7.
Proof.
  apply parseMessageHeader_ok_inv.
Qed.

(** The TVersion frame of a client that offers 8192 and 9P2000.e. *)
Lemma parseMessageHeader_ok_header_witness :
  parseMessageHeader Parser_default
    [x13; x00; x00; x00; x64; xff; xff; x00; x20; x00; x00; x08; x00;
     x39; x50; x32; x30; x30; x30; x2e; x65]
  = (Ok (mkHeader 19 MT.TVersion NO_TAG),
     [x00; x20; x00; x00; x08; x00; x39; x50; x32; x30; x30; x30; x2e; x65])
  /\ payloadSize (mkHeader 19 MT.TVersion NO_TAG)
     = messageSize (mkHeader 19 MT.TVersion NO_TAG) - 7.
Proof.
  split; [reflexivity|].
  destruct (parseMessageHeader_ok_header Parser_default
              [x13; x00; x00; x00; x64; xff; xff; x00; x20; x00; x00; x08; x00;
               x39; x50; x32; x30; x30; x30; x2e; x65]
              (mkHeader 19 MT.TVersion NO_TAG)
              [x00; x20; x00; x00; x08; x00; x39; x50; x32; x30; x30; x30;
               x2e; x65])
    as (_ & _ & _ & _ & _ & _ & _ & H); [reflexivity | exact H].
Defined.

(** Two different outcomes of the header parse cannot be the same value. *)
Ltac refused_otherwise H :=
  exfalso;
  first [ discriminate H
        | vm_compute in H; discriminate H
        | destruct H as [H|H]; vm_compute in H; discriminate H ].

(** X2. Where a refused header leaves the cursor.  IllFormedHeader leaves it
    where it was; FrameTooShort and TooBig leave it past the four bytes of
    the size field; UnsupportedMessageType leaves it past the size field and
    the type byte.  Only a success has consumed all seven bytes. *)
Theorem parseMessageHeader_cursor_after_refusal p src :
  (fst (parseMessageHeader p src) = Err (getCannedError IllFormedHeader) ->
   snd (parseMessageHeader p src) = src) /\
  (fst (parseMessageHeader p src)
   = Err (getCannedError IllFormedHeader_FrameTooShort) \/
   fst (parseMessageHeader p src) = Err (getCannedError IllFormedHeader_TooBig) ->
   snd (parseMessageHeader p src) = skipn 4 src /\
   remaining (snd (parseMessageHeader p src)) = remaining src - 4) /\
  (fst (parseMessageHeader p src) = Err (getCannedError UnsupportedMessageType) ->
   snd (parseMessageHeader p src) = skipn 5 src /\
   remaining (snd (parseMessageHeader p src)) = remaining src - 5) /\
  (isOk (fst (parseMessageHeader p src)) = true ->
   snd (parseMessageHeader p src) = skipn 7 src /\
   remaining (snd (parseMessageHeader p src)) = remaining src - 7).
Proof.
  destruct (Z_lt_ge_dec (remaining src) 7) as [Hshort|Hlong].
  - rewrite parseMessageHeader_short_buffer_eq by exact Hshort. cbn [fst snd].
    split; [reflexivity|]. split; [|split]; intros H; refused_otherwise H.
  - destruct (parseMessageHeader_cases p src)
      as [[_ E]|[[_ [_ E]]|[[_ [_ E]]|[_ [_ E]]]]];
      try lia; rewrite E; cbn [fst snd isOk];
      (split; [|split; [|split]]); intros H;
      first [ solve [split; [reflexivity|apply remaining_skipn; simpl; lia]]
            | refused_otherwise H ].
Qed.

Lemma parseMessageHeader_cursor_after_refusal_witness :
  (* size 5: stopped after the size field *)
  snd (parseMessageHeader Parser_default [x05; x00; x00; x00; x64; x01; x00])
  = [x64; x01; x00] /\
  (* type 200: stopped after the type byte *)
  snd (parseMessageHeader Parser_default [x07; x00; x00; x00; xc8; x01; x00])
  = [x01; x00].
Proof.
  destruct (parseMessageHeader_cursor_after_refusal Parser_default
              [x05; x00; x00; x00; x64; x01; x00]) as (_ & Hsize & _).
  destruct (parseMessageHeader_cursor_after_refusal Parser_default
              [x07; x00; x00; x00; xc8; x01; x00]) as (_ & _ & Htype & _).
  split.
  - apply Hsize. left. reflexivity.
  - apply Htype. reflexivity.
Defined.

(** X3. Header parse followed by a payload parse on the same cursor, as the
    callers chain them.  On a buffer whose header is accepted, the payload
    entry points compare what follows the header with the size field: a
    buffer shorter than its size field ends in NotEnoughData, a longer one
    (a second frame behind the first, say) in MoreThenExpectedData, and a
    buffer that is exactly one frame reaches the type switch with the
    payload bytes. *)
Theorem parse_header_then_payload p src h rest :
  parseMessageHeader p src = (Ok h, rest) ->
  (remaining src < sizeField src ->
   parseRequest p h rest = Err (getCannedError NotEnoughData) /\
   parseResponse p h rest = Err (getCannedError NotEnoughData)) /\
  (remaining src > sizeField src ->
   parseRequest p h rest = Err (getCannedError MoreThenExpectedData) /\
   parseResponse p h rest = Err (getCannedError MoreThenExpectedData)) /\
  (remaining src = sizeField src ->
   parseRequest p h rest = dispatchRequest (typeField src) (skipn 7 src) /\
   parseResponse p h rest = dispatchResponse (typeField src) (skipn 7 src)).
Proof.
  intros H.
  destruct (parseMessageHeader_ok_inv p src h rest H)
    as (Hlen & -> & -> & Hsize & _ & _ & _ & Hpay).
  cbn [messageSize] in Hsize, Hpay.
  assert (Hrem : remaining (skipn 7 src) = remaining src - 7)
    by (apply (remaining_skipn 7); simpl; lia).
  rewrite parseRequest_steps, parseResponse_steps, Hpay, Hrem.
  cbn [messageSize type].
  destruct (Z.gtb_spec (sizeField src) (maxNegotiatedMessageSize p)); [lia|].
  split; [|split]; intros Hcmp;
    destruct (Z.gtb_spec (sizeField src - 7) (remaining src - 7)); try lia;
    destruct (Z.ltb_spec (sizeField src - 7) (remaining src - 7)); try lia;
    split; reflexivity.
Qed.

Lemma parse_header_then_payload_witness :
  (* a TClunk frame cut short by one byte *)
  parseRequest Parser_default (mkHeader 11 MT.TClunk 1) [x05; x00; x00]
  = Err (getCannedError NotEnoughData) /\
  (* a TClunk frame with the first byte of the next frame behind it *)
  parseRequest Parser_default (mkHeader 11 MT.TClunk 1)
    [x05; x00; x00; x00; x0b]
  = Err (getCannedError MoreThenExpectedData) /\
  (* exactly one TClunk frame *)
  parseRequest Parser_default (mkHeader 11 MT.TClunk 1) [x05; x00; x00; x00]
  = dispatchRequest 120 [x05; x00; x00; x00].
Proof.
  destruct (parse_header_then_payload Parser_default
              [x0b; x00; x00; x00; x78; x01; x00; x05; x00; x00]
              (mkHeader 11 MT.TClunk 1) [x05; x00; x00] eq_refl)
    as (Hshort & _ & _).
  destruct (parse_header_then_payload Parser_default
              [x0b; x00; x00; x00; x78; x01; x00; x05; x00; x00; x00; x0b]
              (mkHeader 11 MT.TClunk 1) [x05; x00; x00; x00; x0b] eq_refl)
    as (_ & Hlong & _).
  destruct (parse_header_then_payload Parser_default
              [x0b; x00; x00; x00; x78; x01; x00; x05; x00; x00; x00]
              (mkHeader 11 MT.TClunk 1) [x05; x00; x00; x00] eq_refl)
    as (_ & _ & Hexact).
  split; [|split].
  - apply Hshort. vm_compute. reflexivity.
  - apply Hlong. vm_compute. reflexivity.
  - apply Hexact. vm_compute. reflexivity.
Defined.

(** X4. [makeHeaderWithPayload] and [payloadSize] are inverse on every
    32-bit payload size, also where [headerSize() + payloadSize] wraps; the
    type and the tag are kept.  Up to [2^32 - 8] the header's size is
    [7 + payload]; for the seven sizes above that the sum wraps and the
    header made has a size below 7. *)
Theorem makeHeaderWithPayload_payloadSize t tg n :
  0 <= n < u32_modulus ->
  payloadSize (makeHeaderWithPayload t tg n) = n /\
  type (makeHeaderWithPayload t tg n) = t /\
  tag (makeHeaderWithPayload t tg n) = tg /\
  (n <= u32_modulus - 8 -> messageSize (makeHeaderWithPayload t tg n) = 7 + n) /\
  (u32_modulus - 8 < n ->
   messageSize (makeHeaderWithPayload t tg n) = 7 + n - u32_modulus /\
   messageSize (makeHeaderWithPayload t tg n) < 7).
Proof.
  intros Hn. unfold payloadSize, makeHeaderWithPayload, wrap32.
  cbn [messageSize type tag]. change headerSize with 7.
  unfold u32_modulus in *.
  split.
  - rewrite Zminus_mod_idemp_l. replace (7 + n - 7) with n by lia.
    apply Z.mod_small. lia.
  - split; [reflexivity|]. split; [reflexivity|]. split.
    + intros Hle. apply Z.mod_small. lia.
    + intros Hgt.
      assert (E : (7 + n) mod 2 ^ 32 = 7 + n - 2 ^ 32).
      { rewrite <- (Z_mod_plus_full (7 + n) (-1) (2 ^ 32)).
        replace (7 + n + -1 * 2 ^ 32) with (7 + n - 2 ^ 32) by lia.
        apply Z.mod_small. lia. }
      rewrite E. split; [reflexivity|lia].
Qed.

Lemma makeHeaderWithPayload_payloadSize_witness :
  payloadSize (makeHeaderWithPayload MT.RRead 1 4096) = 4096 /\
  messageSize (makeHeaderWithPayload MT.RRead 1 4096) = 7 + 4096 /\
  payloadSize (makeHeaderWithPayload MT.RRead 1 (u32_modulus - 1))
  = u32_modulus - 1 /\
  messageSize (makeHeaderWithPayload MT.RRead 1 (u32_modulus - 1)) < 7.
Proof.
  destruct (makeHeaderWithPayload_payloadSize MT.RRead 1 4096)
    as (Hp & _ & _ & Hs & _); [vm_compute; split; congruence|].
  destruct (makeHeaderWithPayload_payloadSize MT.RRead 1 (u32_modulus - 1))
    as (Hp' & _ & _ & _ & Hw); [vm_compute; split; congruence|].
  split; [exact Hp|]. split; [apply Hs; vm_compute; congruence|].
  split; [exact Hp'|]. apply Hw. vm_compute. reflexivity.
Defined.

(* ========================================================================= *)
(** * Comparison operators *)

Lemma StringView_eqb_eq a b : StringView_eqb a b = true <-> a = b.
Proof.
  unfold StringView_eqb.
  destruct (list_eq_dec Byte.byte_eq_dec a b); split; intros H;
    congruence.
Qed.

Lemma Qid_eqb_eq a b : Qid_eqb a b = true <-> a = b.
Proof.
  unfold Qid_eqb. destruct a as [t v pa], b as [t' v' pa']. cbn.
  rewrite !andb_true_iff, !Z.eqb_eq. split.
  - intros [[-> ->] ->]. reflexivity.
  - intros H. injection H as -> -> ->. auto.
Qed.

(** X5. [operator==] on Qids is equality of the three fields: it holds
    exactly when the two Qids are the same value, so it is reflexive,
    symmetric and transitive, and a difference in any one field is seen. *)
Theorem Qid_eqb_decides a b :
  (Qid_eqb a b = true <->
   qid_type a = qid_type b /\ qid_version a = qid_version b
   /\ qid_path a = qid_path b) /\
  (Qid_eqb a b = true <-> a = b) /\
  Qid_eqb a a = true /\
  Qid_eqb a b = Qid_eqb b a.
Proof.
  assert (Hfields : Qid_eqb a b = true <->
                    qid_type a = qid_type b /\ qid_version a = qid_version b
                    /\ qid_path a = qid_path b).
  { unfold Qid_eqb. rewrite !andb_true_iff, !Z.eqb_eq. tauto. }
  split; [exact Hfields|]. split; [apply Qid_eqb_eq|].
  split; [apply Qid_eqb_eq; reflexivity|].
  unfold Qid_eqb.
  rewrite (Z.eqb_sym (qid_path a)), (Z.eqb_sym (qid_version a)),
    (Z.eqb_sym (qid_type a)). reflexivity.
Qed.

(** X6. [operator==] on Stats compares eleven of the twelve fields: it
    holds exactly when size, type, dev, qid, mode, atime, mtime, length,
    name, uid and gid agree.  [muid] is not looked at, so two Stats that
    differ only in who last modified the file compare equal. *)
Theorem Stat_eqb_ignores_muid a b :
  (Stat_eqb a b = true <->
   stat_size a = stat_size b /\ stat_type a = stat_type b /\
   stat_dev a = stat_dev b /\ stat_qid a = stat_qid b /\
   stat_mode a = stat_mode b /\ stat_atime a = stat_atime b /\
   stat_mtime a = stat_mtime b /\ stat_length a = stat_length b /\
   stat_name a = stat_name b /\ stat_uid a = stat_uid b /\
   stat_gid a = stat_gid b) /\
  (forall m, Stat_eqb a (Stat_with_muid a m) = true) /\
  (forall m, Stat_eqb a b = Stat_eqb a (Stat_with_muid b m)) /\
  (exists s s', s <> s' /\ Stat_eqb s s' = true).
Proof.
  assert (Hfields : forall x y,
            Stat_eqb x y = true <->
            stat_size x = stat_size y /\ stat_type x = stat_type y /\
            stat_dev x = stat_dev y /\ stat_qid x = stat_qid y /\
            stat_mode x = stat_mode y /\ stat_atime x = stat_atime y /\
            stat_mtime x = stat_mtime y /\ stat_length x = stat_length y /\
            stat_name x = stat_name y /\ stat_uid x = stat_uid y /\
            stat_gid x = stat_gid y).
  { intros x y. unfold Stat_eqb.
    rewrite !andb_true_iff, !Z.eqb_eq, !StringView_eqb_eq, Qid_eqb_eq. tauto. }
  split; [apply Hfields|]. split; [|split].
  - intros m. apply Hfields. cbn. repeat split.
  - intros m. reflexivity.
  - exists (mkStat 0 0 0 (mkQid 0 0 0) 0 0 0 0 [] [] [] []),
           (mkStat 0 0 0 (mkQid 0 0 0) 0 0 0 0 [] [] [] [x61]).
    split; [discriminate|reflexivity].
Qed.

(* ========================================================================= *)
(** * Canned errors *)

(** X7. The table of canned errors lines up with the enumeration: the entry
    [getCannedError] returns for an enumerator carries that enumerator's
    value as its code and the protocol's category, the index is always
    inside the six-entry table, and different enumerators give different
    errors. *)
Theorem getCannedError_table id :
  err_value (getCannedError id) = CannedError_code id /\
  err_category (getCannedError id) = kProtocolErrorCatergory /\
  (Z.to_nat (CannedError_code id) < length kCannedErrors)%nat /\
  In (getCannedError id) kCannedErrors /\
  (forall id', getCannedError id = getCannedError id' <-> id = id').
Proof.
  split; [destruct id; reflexivity|].
  split; [destruct id; reflexivity|].
  split; [destruct id; vm_compute; lia|].
  split; [destruct id; simpl; tauto|].
  intros id'. split; [apply getCannedError_inj | intros ->; reflexivity].
Qed.

(* ========================================================================= *)
(** * Negotiation *)

Lemma maxNegotiatedMessageSize_set_returned p x v p' :
  0 <= maxPossibleMessageSize p < u32_modulus ->
  maxNegotiatedMessageSize_set p x = Returned (v, p') ->
  0 <= x <= maxPossibleMessageSize p /\ v = x /\
  p' = mkParser (_maxMassageSize p) x (_initialVersion p) (_negotiatedVersion p).
Proof.
  intros Hcap. unfold maxNegotiatedMessageSize_set, assertIndexInRange, wrap32.
  destruct (Z.eq_dec (maxPossibleMessageSize p) (u32_modulus - 1)) as [E|E].
  - rewrite E. change ((u32_modulus - 1 + 1) mod u32_modulus) with 0.
    destruct (Z.geb_spec x 0) as [G|G]; destruct (Z.ltb_spec x 0) as [L|L];
      cbn [orb]; intros Hr; try discriminate Hr. lia.
  - rewrite Z.mod_small by (unfold u32_modulus in *; lia).
    destruct (Z.geb_spec x (maxPossibleMessageSize p + 1)) as [G|G];
      destruct (Z.ltb_spec x 0) as [L|L]; cbn [orb]; intros Hr;
      try discriminate Hr.
    injection Hr as <- <-.
    rewrite Z.min_l by lia. repeat split; lia.
Qed.

(** X8. The setter never clamps.  On a parser whose configured size is a
    32-bit value, whenever [maxNegotiatedMessageSize(x)] returns, the value
    returned is [x] itself, [x] is at most the configured size, and the
    parser differs from the one before only in its negotiated size, now
    [x]. *)
Theorem maxNegotiatedMessageSize_set_returns_request p x v p' :
  0 <= maxPossibleMessageSize p < u32_modulus ->
  maxNegotiatedMessageSize_set p x = Returned (v, p') ->
  v = x /\
  0 <= x <= maxPossibleMessageSize p /\
  maxNegotiatedMessageSize p' = x /\
  maxPossibleMessageSize p' = maxPossibleMessageSize p /\
  getNegotiatedVersion p' = getNegotiatedVersion p /\
  _initialVersion p' = _initialVersion p.
Proof.
  intros Hcap H.
  destruct (maxNegotiatedMessageSize_set_returned p x v p' Hcap H)
    as (Hx & -> & ->).
  repeat split; lia.
Qed.

Lemma maxNegotiatedMessageSize_set_returns_request_witness :
  maxNegotiatedMessageSize_set Parser_default 4096
  = Returned (4096, mkParser 8192 4096 PROTOCOL_VERSION PROTOCOL_VERSION)
  /\ maxNegotiatedMessageSize
       (mkParser 8192 4096 PROTOCOL_VERSION PROTOCOL_VERSION) = 4096.
Proof.
  split; [reflexivity|].
  destruct (maxNegotiatedMessageSize_set_returns_request Parser_default 4096
              4096 (mkParser 8192 4096 PROTOCOL_VERSION PROTOCOL_VERSION))
    as (_ & _ & H & _); [vm_compute; split; congruence | reflexivity | exact H].
Defined.

(** X9. A negotiated size takes effect on the next header.  After
    [maxNegotiatedMessageSize(x)] has returned, the header parse of the
    parser refuses with TooBig exactly the frames whose size field (at least
    7, in a buffer of at least seven bytes) exceeds [x], whatever size was
    negotiated before. *)
Theorem negotiated_size_bounds_next_header p x v p' src :
  0 <= maxPossibleMessageSize p < u32_modulus ->
  maxNegotiatedMessageSize_set p x = Returned (v, p') ->
  7 <= remaining src ->
  7 <= sizeField src ->
  (fst (parseMessageHeader p' src) = Err (getCannedError IllFormedHeader_TooBig)
   <-> x < sizeField src).
Proof.
  intros Hcap Hset Hlen Hsize.
  destruct (maxNegotiatedMessageSize_set_returned p x v p' Hcap Hset)
    as (Hx & -> & ->).
  destruct (parseMessageHeader_cases
              (mkParser (_maxMassageSize p) x (_initialVersion p)
                        (_negotiatedVersion p)) src Hlen)
    as [[Hs E]|[[_ [Hs E]]|[[Hs [_ E]]|[Hs [_ E]]]]];
    unfold maxNegotiatedMessageSize in Hs; cbn [_maxNegotiatedMessageSize] in Hs;
    try lia; rewrite E; cbn [fst]; split; intros H;
    first [reflexivity | lia | refused_otherwise H].
Qed.

(** 256 negotiated on the default parser: a frame of 4096 is then too big,
    a frame of 19 is not. *)
Lemma negotiated_size_bounds_next_header_witness :
  fst (parseMessageHeader (mkParser 8192 256 PROTOCOL_VERSION PROTOCOL_VERSION)
         [x00; x10; x00; x00; x64; xff; xff])
  = Err (getCannedError IllFormedHeader_TooBig) /\
  fst (parseMessageHeader (mkParser 8192 256 PROTOCOL_VERSION PROTOCOL_VERSION)
         [x13; x00; x00; x00; x64; xff; xff])
  <> Err (getCannedError IllFormedHeader_TooBig).
Proof.
  split.
  - apply (negotiated_size_bounds_next_header Parser_default 256 256
             (mkParser 8192 256 PROTOCOL_VERSION PROTOCOL_VERSION)
             [x00; x10; x00; x00; x64; xff; xff]);
      try reflexivity; vm_compute; try split; congruence.
  - intros H.
    apply (negotiated_size_bounds_next_header Parser_default 256 256
             (mkParser 8192 256 PROTOCOL_VERSION PROTOCOL_VERSION)
             [x13; x00; x00; x00; x64; xff; xff]) in H;
      try reflexivity; try (vm_compute; try split; congruence).
    vm_compute in H. discriminate H.
Defined.

Lemma negotiate_all_keeps_versions xs :
  forall p,
    _initialVersion (negotiate_all p xs) = _initialVersion p /\
    getNegotiatedVersion (negotiate_all p xs) = getNegotiatedVersion p.
Proof.
  induction xs as [|x xs IH]; intros p.
  - split; reflexivity.
  - cbn [negotiate_all fold_left].
    destruct (IH (parser_after p (maxNegotiatedMessageSize_set p x))) as [H1 H2].
    unfold negotiate_all in H1, H2. rewrite H1, H2.
    unfold maxNegotiatedMessageSize_set.
    destruct (assertIndexInRange x 0 (wrap32 (maxPossibleMessageSize p + 1)));
      split; reflexivity.
Qed.

(** X10. The cap on a freshly constructed parser.  Start from
    [Parser(maxMassageSize, version)] and make any run of
    [maxNegotiatedMessageSize(x)] calls, returning or raising: the
    configured size is still [maxMassageSize], the negotiated size has not
    risen above it, and both version strings are still [version]. *)
Theorem negotiate_all_from_new m version xs :
  let p := negotiate_all (Parser_new m version) xs in
  maxPossibleMessageSize p = m /\
  maxNegotiatedMessageSize p <= m /\
  _initialVersion p = version /\
  getNegotiatedVersion p = version.
Proof.
  cbv zeta.
  destruct (negotiate_all_keeps_cap xs (Parser_new m version)) as [Hcap Hinv].
  { cbn. lia. }
  destruct (negotiate_all_keeps_versions xs (Parser_new m version)) as [Hi Hn].
  rewrite Hcap in Hinv. repeat split; assumption.
Qed.

(* ========================================================================= *)
(** * The two switches over all type codes *)

Lemma request_codes_eq :
  request_codes
  = [100; 102; 108; 104; 110; 112; 114; 116; 118; 120; 122; 124; 126;
     150; 152; 154].
Proof. reflexivity. Qed.

Lemma response_codes_eq :
  response_codes
  = [107; 101; 103; 105; 111; 113; 115; 153; 117; 155; 119; 125; 109; 121;
     123; 127; 151].
Proof. reflexivity. Qed.

(** Walks down a switch: at each case either the code is the case label,
    which the hypothesis [H] rules out, or the next case is tried. *)
Ltac switch_default H :=
  repeat match goal with
         | |- context [?a =? ?b] =>
             destruct (Z.eqb_spec a b) as [?e|?ne];
             [exfalso; apply H; rewrite e; vm_compute; auto 20|]
         end.

Lemma dispatchRequest_default t data :
  ~ In t request_codes ->
  dispatchRequest t data = Err (getCannedError UnsupportedMessageType).
Proof.
  intros H. unfold dispatchRequest. switch_default H. reflexivity.
Qed.

Lemma dispatchResponse_default t data :
  ~ In t response_codes ->
  dispatchResponse t data = Err (getCannedError UnsupportedMessageType).
Proof.
  intros H. unfold dispatchResponse. switch_default H. reflexivity.
Qed.

Lemma request_response_disjoint t :
  In t request_codes -> ~ In t response_codes.
Proof.
  rewrite request_codes_eq, response_codes_eq. simpl. intros H H'. lia.
Qed.

(** X11. The default case of both switches, for every type code.  Past the
    pre-dispatch checks, [parseRequest] returns UnsupportedMessageType for
    every code that is not one of its sixteen case labels and
    [parseResponse] for every code that is not one of its seventeen; no code
    is a label of both, so whatever the type byte at least one of the two
    entry points refuses the frame as unsupported. *)
Theorem parse_default_case p h data :
  messageSize h <= maxNegotiatedMessageSize p ->
  remaining data = payloadSize h ->
  (~ In (type h) [100; 102; 104; 108; 110; 112; 114; 116; 118; 120; 122; 124;
                  126; 150; 152; 154] ->
   parseRequest p h data = Err (getCannedError UnsupportedMessageType)) /\
  (~ In (type h) [101; 103; 105; 107; 109; 111; 113; 115; 117; 119; 121; 123;
                  125; 127; 151; 153; 155] ->
   parseResponse p h data = Err (getCannedError UnsupportedMessageType)) /\
  (parseRequest p h data = Err (getCannedError UnsupportedMessageType) \/
   parseResponse p h data = Err (getCannedError UnsupportedMessageType)).
Proof.
  intros Hsize Hrem.
  assert (Hreq : ~ In (type h) request_codes ->
                 parseRequest p h data
                 = Err (getCannedError UnsupportedMessageType)).
  { intros H. pre_dispatch. apply dispatchRequest_default. exact H. }
  assert (Hresp : ~ In (type h) response_codes ->
                  parseResponse p h data
                  = Err (getCannedError UnsupportedMessageType)).
  { intros H. pre_dispatch. apply dispatchResponse_default. exact H. }
  split; [|split].
  - intros H. apply Hreq. rewrite request_codes_eq. simpl in *. lia.
  - intros H. apply Hresp. rewrite response_codes_eq. simpl in *. lia.
  - destruct (In_dec Z.eq_dec (type h) request_codes) as [Hin|Hout].
    + right. apply Hresp. apply request_response_disjoint. exact Hin.
    + left. apply Hreq. exact Hout.
Qed.

(** Type 0, type 130 and type 255 on an empty payload. *)
Lemma parse_default_case_witness :
  parseRequest Parser_default (mkHeader 7 0 1) []
  = Err (getCannedError UnsupportedMessageType) /\
  parseResponse Parser_default (mkHeader 7 130 1) []
  = Err (getCannedError UnsupportedMessageType) /\
  parseResponse Parser_default (mkHeader 7 255 1) []
  = Err (getCannedError UnsupportedMessageType).
Proof.
  destruct (parse_default_case Parser_default (mkHeader 7 0 1) [])
    as (H0 & _ & _); [vm_compute; congruence | reflexivity |].
  destruct (parse_default_case Parser_default (mkHeader 7 130 1) [])
    as (_ & H130 & _); [vm_compute; congruence | reflexivity |].
  destruct (parse_default_case Parser_default (mkHeader 7 255 1) [])
    as (_ & H255 & _); [vm_compute; congruence | reflexivity |].
  split; [|split].
  - apply H0. simpl. intros H. lia.
  - apply H130. simpl. intros H. lia.
  - apply H255. simpl. intros H. lia.
Defined.

(** X12. The codes the header parse lets through without a decoder behind
    them.  A header returned by [parseMessageHeader] whose type byte is
    TError (106) or one of the unassigned codes 128 to 149 is refused with
    UnsupportedMessageType by both [parseRequest] and [parseResponse] when
    it is handed to them with its payload. *)
Theorem unassigned_code_refused_at_dispatch p src h rest data :
  parseMessageHeader p src = (Ok h, rest) ->
  type h = 106 \/ 128 <= type h <= 149 ->
  remaining data = payloadSize h ->
  parseRequest p h data = Err (getCannedError UnsupportedMessageType) /\
  parseResponse p h data = Err (getCannedError UnsupportedMessageType).
Proof.
  intros Hhdr Hty Hrem.
  destruct (parseMessageHeader_ok_inv p src h rest Hhdr)
    as (_ & _ & _ & Hsize & _).
  split; pre_dispatch.
  - apply dispatchRequest_default. rewrite request_codes_eq. simpl. lia.
  - apply dispatchResponse_default. rewrite response_codes_eq. simpl. lia.
Qed.

Lemma unassigned_code_refused_at_dispatch_witness :
  parseMessageHeader Parser_default [x07; x00; x00; x00; x80; x01; x00]
  = (Ok (mkHeader 7 128 1), []) /\
  parseRequest Parser_default (mkHeader 7 128 1) []
  = Err (getCannedError UnsupportedMessageType) /\
  parseResponse Parser_default (mkHeader 7 128 1) []
  = Err (getCannedError UnsupportedMessageType).
Proof.
  split; [reflexivity|].
  apply (unassigned_code_refused_at_dispatch Parser_default
           [x07; x00; x00; x00; x80; x01; x00] (mkHeader 7 128 1) [] []);
    [reflexivity | right; vm_compute; split; congruence | reflexivity].
Defined.

Lemma dispatchResponse_no_data t v data :
  In (t, v) no_data_responses -> dispatchResponse t data = Ok (v, data).
Proof.
  intros H. simpl in H.
  repeat (destruct H as [H|H]; [injection H as <- <-; reflexivity|]).
  contradiction.
Qed.

Lemma dispatchResponse_empty t :
  ~ In t (map fst no_data_responses) ->
  isOk (dispatchResponse t []) = false.
Proof.
  intros H. unfold dispatchResponse.
  repeat match goal with
         | |- context [?a =? ?b] =>
             destruct (Z.eqb_spec a b) as [?e|?ne]; cbn [orb];
             try reflexivity;
             try (exfalso; apply H; rewrite e; vm_compute; auto 10)
         end.
Qed.

Lemma dispatchRequest_empty t :
  exists e, dispatchRequest t [] = Err e.
Proof.
  unfold dispatchRequest.
  repeat match goal with
         | |- context [?a =? ?b] =>
             destruct (Z.eqb_spec a b) as [?e|?ne];
             [eexists; reflexivity|]
         end.
  eexists. reflexivity.
Qed.

(** X13. Replies without a payload are built without reading.  For RFlush,
    RClunk, RRemove, RWStat and RSession that pass the pre-dispatch checks,
    [parseResponse] returns the matching empty variant and leaves the cursor
    where it was: payload bytes such a frame declares and carries are
    neither decoded nor refused. *)
Theorem parseResponse_no_data p h data v :
  In (type h, v)
     [(109, Response_Flush); (121, Response_Clunk); (123, Response_Remove);
      (127, Response_WStat); (151, Response_9P2000E_Session)] ->
  messageSize h <= maxNegotiatedMessageSize p ->
  remaining data = payloadSize h ->
  parseResponse p h data = Ok (v, data).
Proof.
  intros Hin Hsize Hrem. pre_dispatch.
  apply dispatchResponse_no_data. exact Hin.
Qed.

(** An RFlush frame of size 10: three payload bytes, left unread. *)
Lemma parseResponse_no_data_witness :
  parseResponse Parser_default (mkHeader 10 MT.RFlush 1) [xde; xad; x00]
  = Ok (Response_Flush, [xde; xad; x00]).
Proof.
  apply (parseResponse_no_data Parser_default (mkHeader 10 MT.RFlush 1)
           [xde; xad; x00] Response_Flush);
    [left; reflexivity | vm_compute; congruence | reflexivity].
Defined.

(** X14. A cursor with nothing left.  [parseRequest] never succeeds on it:
    every request carries at least one field.  [parseResponse] succeeds on
    it exactly when the header's size is within the negotiated one, its
    payload size is 0 and its type is one of the five replies without a
    payload. *)
Theorem parse_empty_cursor p h :
  (exists e, parseRequest p h [] = Err e) /\
  (isOk (parseResponse p h []) = true <->
   messageSize h <= maxNegotiatedMessageSize p /\
   payloadSize h = 0 /\
   In (type h) [109; 121; 123; 127; 151]).
Proof.
  split.
  - rewrite parseRequest_steps.
    destruct (messageSize h >? maxNegotiatedMessageSize p); [eauto|].
    destruct (payloadSize h >? remaining []); [eauto|].
    destruct (payloadSize h <? remaining []); [eauto|].
    apply dispatchRequest_empty.
  - rewrite parseResponse_steps. change (remaining []) with 0.
    destruct (Z.gtb_spec (messageSize h) (maxNegotiatedMessageSize p));
      [cbn [isOk]; split; [discriminate|lia]|].
    destruct (Z.gtb_spec (payloadSize h) 0);
      [cbn [isOk]; split; [discriminate|lia]|].
    destruct (Z.ltb_spec (payloadSize h) 0);
      [cbn [isOk]; split; [discriminate|lia]|].
    destruct (In_dec Z.eq_dec (type h) (map fst no_data_responses))
      as [Hin|Hout].
    + assert (Hv : exists v, In (type h, v) no_data_responses).
      { apply in_map_iff in Hin. destruct Hin as [[t v] [Ht Hin]].
        cbn [fst] in Ht. subst t. eauto. }
      destruct Hv as [v Hv].
      rewrite (dispatchResponse_no_data _ v) by exact Hv. cbn [isOk].
      split; [|reflexivity]. intros _. split; [lia|]. split; [lia|].
      exact Hin.
    + rewrite dispatchResponse_empty by exact Hout.
      split; [discriminate|]. intros (_ & _ & Hin). exfalso. apply Hout.
      exact Hin.
Qed.

(* ========================================================================= *)
(** * The walk reply within the array *)

Lemma nth_list_update_same {A} (l : list A) i v d :
  (i < length l)%nat -> nth i (list_update l i v) d = v.
Proof.
  revert i. induction l as [|x l IH]; intros [|i] H; simpl in *;
    try lia; auto. apply IH. lia.
Qed.

Lemma nth_list_update_other {A} (l : list A) i k v d :
  i <> k -> nth k (list_update l i v) d = nth k l d.
Proof.
  revert i k. induction l as [|x l IH]; intros [|i] [|k] H; simpl;
    try reflexivity; try contradiction. apply IH. lia.
Qed.

Lemma read_qid_value src :
  13 <= remaining src -> read_qid src = Ok (qidAt src 0, skipn 13 src).
Proof.
  intros H.
  do 13 (destruct src as [|? src]; [unfold remaining in H; simpl in H; lia|]).
  reflexivity.
Qed.

Lemma qidAt_skipn src k : qidAt (skipn 13 src) k = qidAt src (S k).
Proof.
  unfold qidAt. rewrite !skipn_skipn.
  replace (13 * k + 13)%nat with (13 * S k)%nat by lia.
  replace (13 * k + 1 + 13)%nat with (13 * S k + 1)%nat by lia.
  replace (13 * k + 5 + 13)%nat with (13 * S k + 5)%nat by lia.
  reflexivity.
Qed.

(** The loop inside the array: [todo] Qids are decoded in order into the
    slots from [i] on, the other slots are as they were, and the cursor
    ends past the [13 * todo] bytes. *)
Lemma parseWalkResponse_loop_fills todo :
  forall i slots src,
    length slots = Walk_extent ->
    (i + todo <= 16)%nat ->
    13 * Z.of_nat todo <= remaining src ->
    exists slots',
      parseWalkResponse_loop todo (Z.of_nat i) slots src
      = Ok (slots', skipn (13 * todo) src) /\
      length slots' = Walk_extent /\
      (forall j, (j < todo)%nat ->
                 nth (i + j) slots' None = Some (qidAt src j)) /\
      (forall k, (k < i)%nat \/ (i + todo <= k)%nat ->
                 nth k slots' None = nth k slots None).
Proof.
  induction todo as [|todo IH]; intros i slots src Hlen Hi Hdata.
  - exists slots. cbn [parseWalkResponse_loop ret].
    rewrite Nat.mul_0_r. cbn [skipn].
    split; [reflexivity|]. split; [exact Hlen|]. split; [lia|reflexivity].
  - cbn [parseWalkResponse_loop]. unfold bind, read_qid_into.
    rewrite slot_ref_inside by (rewrite Hlen; unfold Walk_extent; lia).
    rewrite read_qid_value by lia.
    rewrite Nat2Z.id.
    destruct (IH (S i) (list_update slots i (Some (qidAt src 0)))
                (skipn 13 src))
      as (slots' & Hrun & Hlen' & Hfill & Hkeep).
    + rewrite list_update_length. exact Hlen.
    + lia.
    + rewrite (remaining_skipn 13) by (simpl; lia). simpl Z.of_nat. lia.
    + exists slots'.
      replace (Z.of_nat i + 1) with (Z.of_nat (S i)) by lia.
      rewrite Hrun, skipn_skipn.
      replace (13 * todo + 13)%nat with (13 * S todo)%nat by lia.
      split; [reflexivity|]. split; [exact Hlen'|]. split.
      * intros [|j] Hj.
        -- rewrite Nat.add_0_r, Hkeep by lia.
           apply nth_list_update_same. rewrite Hlen. unfold Walk_extent. lia.
        -- replace (i + S j)%nat with (S i + j)%nat by lia.
           rewrite Hfill by lia. f_equal. apply qidAt_skipn.
      * intros k Hk. rewrite Hkeep by lia.
        apply nth_list_update_other. lia.
Qed.

(** X15. The walk reply when the count fits the array.  For an RWalk frame
    past the pre-dispatch checks whose count [n] is at most 16: if the [n]
    Qids are all there, [parseResponse] returns the Walk variant with
    [nqids = n] and slot [k] holding the [k]-th Qid of the payload for
    every [k < n], and leaves the cursor behind the last Qid; the slots from
    [n] to 15 are never written, so what they hold is not set by the parse.
    If the Qids are not all there, it fails with NotEnoughData. *)
Theorem parseResponse_walk_within_extent p h data :
  type h = MT.RWalk ->
  messageSize h <= maxNegotiatedMessageSize p ->
  remaining data = payloadSize h ->
  2 <= remaining data ->
  nqidsField data <= 16 ->
  (13 * nqidsField data <= remaining data - 2 ->
   exists slots,
     parseResponse p h data
     = Ok (Response_Walk_ (mkWalk (nqidsField data) slots),
           skipn (2 + 13 * Z.to_nat (nqidsField data)) data) /\
     length slots = 16%nat /\
     (forall k, (k < Z.to_nat (nqidsField data))%nat ->
                nth k slots None = Some (qidAt (skipn 2 data) k)) /\
     (forall k, (Z.to_nat (nqidsField data) <= k < 16)%nat ->
                nth k slots (Some (mkQid 0 0 0)) = None)) /\
  (remaining data - 2 < 13 * nqidsField data ->
   parseResponse p h data = Err (getCannedError NotEnoughData)).
Proof.
  intros Hty Hsize Hrem Hlen Hn.
  assert (H0 : 0 <= nqidsField data) by apply le_value_range.
  assert (Hrest : remaining (skipn 2 data) = remaining data - 2)
    by (apply (remaining_skipn 2); simpl; lia).
  assert (E : parseResponse p h data = parseWalkResponse data).
  { pre_dispatch. rewrite Hty. reflexivity. }
  rewrite E. unfold parseWalkResponse, bind.
  rewrite read_u16_enough by exact Hlen. fold (nqidsField data).
  split; intros Hdata.
  - destruct (parseWalkResponse_loop_fills (Z.to_nat (nqidsField data)) 0
                Walk_fresh_slots (skipn 2 data))
      as (slots & Hrun & Hlen' & Hfill & Hkeep); try reflexivity; try lia.
    exists slots. change (Z.of_nat 0) with 0 in Hrun.
    rewrite Hrun, skipn_skipn. cbn [ret].
    replace (13 * Z.to_nat (nqidsField data) + 2)%nat
      with (2 + 13 * Z.to_nat (nqidsField data))%nat by lia.
    split; [reflexivity|]. split; [exact Hlen'|]. split.
    + intros k Hk. apply (Hfill k Hk).
    + intros k Hk.
      rewrite (nth_indep slots (Some (mkQid 0 0 0)) None)
        by (rewrite Hlen'; unfold Walk_extent; lia).
      rewrite Hkeep by lia.
      unfold Walk_fresh_slots. apply nth_repeat_lt. unfold Walk_extent. lia.
  - rewrite parseWalkResponse_loop_short;
      [reflexivity | reflexivity | lia | lia].
Qed.

(** The RWalk reply of two Qids, [{0x80, 1, 100}] and [{0x00, 2, 200}]:
    slots 0 and 1 hold them, slot 2 has not been written. *)
Lemma parseResponse_walk_within_extent_witness :
  exists slots,
    parseResponse Parser_default (mkHeader 35 MT.RWalk 7)
      [x02; x00;
       x80; x01; x00; x00; x00; x64; x00; x00; x00; x00; x00; x00; x00;
       x00; x02; x00; x00; x00; xc8; x00; x00; x00; x00; x00; x00; x00]
    = Ok (Response_Walk_ (mkWalk 2 slots), []) /\
    nth 0 slots None = Some (mkQid 128 1 100) /\
    nth 1 slots None = Some (mkQid 0 2 200) /\
    nth 2 slots (Some (mkQid 0 0 0)) = None.
Proof.
  destruct (parseResponse_walk_within_extent Parser_default
              (mkHeader 35 MT.RWalk 7)
              [x02; x00;
               x80; x01; x00; x00; x00; x64; x00; x00; x00; x00; x00; x00; x00;
               x00; x02; x00; x00; x00; xc8; x00; x00; x00; x00; x00; x00; x00])
    as (Hfull & _); try reflexivity; try (vm_compute; congruence).
  destruct Hfull as (slots & Hrun & _ & Hfill & Hkeep);
    [vm_compute; congruence|].
  exists slots. split; [exact Hrun|].
  split; [apply (Hfill 0%nat); vm_compute; lia|].
  split; [apply (Hfill 1%nat); vm_compute; lia|].
  apply (Hkeep 2%nat). vm_compute. lia.
Defined.

(* ========================================================================= *)
(** * What a payload parse consumes, and where it can go wrong *)

Lemma forward_ret {A} (a : A) : forward (ret a).
Proof. intros src. exists []. reflexivity. Qed.

Lemma forward_fail {A} e : forward (@fail A e).
Proof. intros src. exact I. Qed.

Lemma forward_readBytes n : forward (readBytes n).
Proof.
  intros src. unfold readBytes. destruct (length src <? n)%nat; [exact I|].
  exists (firstn n src). symmetry. apply firstn_skipn.
Qed.

Lemma forward_bind {A B} (m : Decoder A) (k : A -> Decoder B) :
  forward m -> (forall a, forward (k a)) -> forward (bind m k).
Proof.
  intros Hm Hk src. unfold bind. specialize (Hm src).
  destruct (m src) as [[a src']|e|f]; [|exact I|contradiction].
  destruct Hm as [c1 ->]. specialize (Hk a src').
  destruct (k a src') as [[b rest]|e|f]; [|exact I|contradiction].
  destruct Hk as [c2 ->]. exists (c1 ++ c2). apply app_assoc.
Qed.

Lemma forward_andThen {A B} (d : Decoder A) (wrap : A -> B) :
  forward d -> forward (andThen d wrap).
Proof.
  intros H. unfold andThen. apply forward_bind; [exact H|].
  intros a. apply forward_ret.
Qed.

Lemma forward_readLE w : forward (readLE w).
Proof.
  unfold readLE. apply forward_bind; [apply forward_readBytes|].
  intros bs. apply forward_ret.
Qed.

Lemma forward_read_u8 : forward read_u8.
Proof. apply forward_readLE. Qed.

Lemma forward_read_u16 : forward read_u16.
Proof. apply forward_readLE. Qed.

Lemma forward_read_u32 : forward read_u32.
Proof. apply forward_readLE. Qed.

Lemma forward_read_u64 : forward read_u64.
Proof. apply forward_readLE. Qed.

Create HintDb forward.
#[local] Hint Resolve forward_ret forward_fail forward_readBytes
  forward_read_u8 forward_read_u16 forward_read_u32 forward_read_u64
  : forward.

(** A chain of reads is forward when each read is. *)
Ltac forward_steps :=
  repeat first
    [ solve [auto with forward]
    | apply forward_andThen
    | apply forward_bind; [|intros ?; cbv beta] ].

Lemma forward_read_string : forward read_string.
Proof. unfold read_string. forward_steps. Qed.

Lemma forward_read_blob : forward read_blob.
Proof. unfold read_blob. forward_steps. Qed.

Lemma forward_read_qid : forward read_qid.
Proof. unfold read_qid. forward_steps. Qed.

#[local] Hint Resolve forward_read_string forward_read_blob forward_read_qid
  : forward.

Lemma forward_read_stat : forward read_stat.
Proof. unfold read_stat. forward_steps. Qed.

Lemma forward_read_strings n : forward (read_strings n).
Proof.
  induction n as [|n IH]; cbn [read_strings]; forward_steps.
Qed.

#[local] Hint Resolve forward_read_stat forward_read_strings : forward.

Lemma forward_read_walkpath : forward read_walkpath.
Proof. unfold read_walkpath. forward_steps. Qed.

#[local] Hint Resolve forward_read_walkpath : forward.

Lemma forward_dispatchRequest t : forward (dispatchRequest t).
Proof.
  unfold dispatchRequest.
  repeat match goal with
         | |- context [?a =? ?b] => destruct (a =? b)
         end;
    unfold parseVersionRequest, parseAuthRequest, parseFlushRequest,
      parseAttachRequest, parseWalkRequest, parseOpenRequest,
      parseCreateRequest, parseReadRequest, parseWriteRequest,
      parseClunkRequest, parseRemoveRequest, parseStatRequest,
      parseWStatRequest, parseSessionRequest, parseShortReadRequest,
      parseShortWriteRequest;
    forward_steps.
Qed.

Lemma forward_dispatchResponse t :
  t <> MT.RWalk -> forward (dispatchResponse t).
Proof.
  intros Hne. unfold dispatchResponse.
  repeat match goal with
         | |- context [?a =? ?b] =>
             destruct (Z.eqb_spec a b); cbn [orb]; try contradiction
         end;
    unfold parseErrorResponse, parseVersionResponse, parseAuthResponse,
      parseAttachResponse, parseOpenResponse, parseCreateResponse,
      parseReadResponse, parseWriteResponse, parseStatResponse,
      parseNoDataResponse;
    forward_steps.
Qed.

(** What the walk loop can end in: a cursor further on, a failed read, or
    the store through slot 16. *)
Lemma parseWalkResponse_loop_shape todo :
  forall i slots src,
    length slots = Walk_extent ->
    0 <= i <= 16 ->
    match parseWalkResponse_loop todo i slots src with
    | Ok (_, rest) => exists consumed, src = consumed ++ rest
    | Err _ => True
    | Undefined f => f = StoreOutOfBounds 16 16 /\ 16 < i + Z.of_nat todo
    end.
Proof.
  induction todo as [|todo IH]; intros i slots src Hlen Hi.
  - cbn. exists []. reflexivity.
  - cbn [parseWalkResponse_loop]. unfold bind, read_qid_into.
    destruct (Z.eq_dec i 16) as [->|Hne].
    + rewrite slot_ref_outside by (rewrite Hlen; unfold Walk_extent; lia).
      rewrite Hlen. split; [reflexivity|lia].
    + rewrite slot_ref_inside by (rewrite Hlen; unfold Walk_extent; lia).
      pose proof (forward_read_qid src) as Hq.
      destruct (read_qid src) as [[q src']|e|f]; [|exact I|contradiction].
      destruct Hq as [c1 ->].
      specialize (IH (i + 1) (list_update slots (Z.to_nat i) (Some q)) src').
      rewrite list_update_length in IH. specialize (IH Hlen).
      destruct (parseWalkResponse_loop todo (i + 1)
                  (list_update slots (Z.to_nat i) (Some q)) src')
        as [[slots' rest]|e|f].
      * destruct IH as [c2 ->]; [lia|]. exists (c1 ++ c2). apply app_assoc.
      * exact I.
      * destruct IH as [-> Hc]; [lia|]. split; [reflexivity|lia].
Qed.

Lemma parseWalkResponse_shape data :
  match parseWalkResponse data with
  | Ok (_, rest) => exists consumed, data = consumed ++ rest
  | Err _ => True
  | Undefined f => f = StoreOutOfBounds 16 16 /\ 16 < nqidsField data
  end.
Proof.
  unfold parseWalkResponse, bind, read_u16.
  destruct (readLE_cases 2 data) as [[e He]|He]; rewrite He; [exact I|].
  fold (nqidsField data).
  assert (H0 : 0 <= nqidsField data) by apply le_value_range.
  pose proof (parseWalkResponse_loop_shape (Z.to_nat (nqidsField data)) 0
                Walk_fresh_slots (skipn 2 data) eq_refl) as Hloop.
  destruct (parseWalkResponse_loop (Z.to_nat (nqidsField data)) 0
              Walk_fresh_slots (skipn 2 data)) as [[slots rest]|e|f].
  - destruct Hloop as [c Hc]; [lia|]. cbn [ret].
    exists (firstn 2 data ++ c). rewrite <- app_assoc, <- Hc.
    symmetry. apply firstn_skipn.
  - exact I.
  - destruct Hloop as [-> Hc]; [lia|]. split; [reflexivity|lia].
Qed.

Lemma remaining_app a b : remaining (a ++ b) = remaining a + remaining b.
Proof. unfold remaining. rewrite length_app. lia. Qed.

(** X16. A successful request parse stays inside its frame.  When
    [parseRequest] returns a message, the cursor it returns is a tail of
    the one it was given, the cursor given held exactly the [payloadSize]
    bytes the header declared, and what is left unread is at most that:
    bytes the decoder had no use for are left behind the message rather
    than refused. *)
Theorem parseRequest_stays_in_frame p h data m rest :
  parseRequest p h data = Ok (m, rest) ->
  (exists consumed, data = consumed ++ rest) /\
  remaining data = payloadSize h /\
  0 <= remaining rest <= payloadSize h.
Proof.
  rewrite parseRequest_steps.
  destruct (Z.gtb_spec (messageSize h) (maxNegotiatedMessageSize p));
    [discriminate|].
  destruct (Z.gtb_spec (payloadSize h) (remaining data)); [discriminate|].
  destruct (Z.ltb_spec (payloadSize h) (remaining data)); [discriminate|].
  pose proof (forward_dispatchRequest (type h) data) as Hf.
  destruct (dispatchRequest (type h) data) as [[m' rest']|e|f];
    [|discriminate|contradiction].
  intros Heq. injection Heq as <- <-.
  destruct Hf as [c Hc]. split; [exists c; exact Hc|].
  split; [lia|].
  pose proof (remaining_nonneg rest'). pose proof (remaining_nonneg c).
  rewrite Hc, remaining_app in *. lia.
Qed.

(** A TClunk frame that declares six payload bytes: the fid takes four, two
    are left. *)
Lemma parseRequest_stays_in_frame_witness :
  parseRequest Parser_default (mkHeader 13 MT.TClunk 1)
    [x05; x00; x00; x00; xaa; xbb]
  = Ok (Request_Clunk 5, [xaa; xbb]) /\
  0 <= remaining [xaa; xbb] <= payloadSize (mkHeader 13 MT.TClunk 1).
Proof.
  split; [reflexivity|].
  destruct (parseRequest_stays_in_frame Parser_default
              (mkHeader 13 MT.TClunk 1) [x05; x00; x00; x00; xaa; xbb]
              (Request_Clunk 5) [xaa; xbb] eq_refl) as (_ & _ & Hrest).
  exact Hrest.
Defined.

(** X17. The one place a response parse can leave its object.
    [parseResponse] ends in a store outside an array only for an RWalk
    frame whose count is above 16, and then the store is the one through
    slot 16 of the sixteen slots; every other reply type, and every RWalk
    with a count up to 16, ends in a message or an error.  When it
    succeeds, the cursor it returns is a tail of the one it was given. *)
Theorem parseResponse_fault_only_in_walk p h data :
  (forall f,
      parseResponse p h data = Undefined f ->
      type h = MT.RWalk /\ 16 < nqidsField data /\ f = StoreOutOfBounds 16 16) /\
  (forall m rest,
      parseResponse p h data = Ok (m, rest) ->
      (exists consumed, data = consumed ++ rest) /\
      0 <= remaining rest <= payloadSize h).
Proof.
  rewrite parseResponse_steps.
  destruct (Z.gtb_spec (messageSize h) (maxNegotiatedMessageSize p));
    [split; intros; discriminate|].
  destruct (Z.gtb_spec (payloadSize h) (remaining data));
    [split; intros; discriminate|].
  destruct (Z.ltb_spec (payloadSize h) (remaining data));
    [split; intros; discriminate|].
  assert (Hshape :
            match dispatchResponse (type h) data with
            | Ok (_, rest) => exists consumed, data = consumed ++ rest
            | Err _ => True
            | Undefined f =>
                type h = MT.RWalk /\ 16 < nqidsField data
                /\ f = StoreOutOfBounds 16 16
            end).
  { destruct (Z.eq_dec (type h) MT.RWalk) as [E|E].
    - rewrite E. change (dispatchResponse MT.RWalk) with parseWalkResponse.
      pose proof (parseWalkResponse_shape data) as Hw.
      destruct (parseWalkResponse data) as [[m' rest']|e|f]; try exact Hw.
      destruct Hw as [-> Hn]. auto.
    - pose proof (forward_dispatchResponse (type h) E data) as Hf.
      destruct (dispatchResponse (type h) data) as [[m' rest']|e|f];
        [exact Hf | exact I | contradiction]. }
  destruct (dispatchResponse (type h) data) as [[m' rest']|e|f].
  - split; [intros; discriminate|].
    intros m rest Heq. injection Heq as <- <-.
    destruct Hshape as [c Hc]. split; [exists c; exact Hc|].
    pose proof (remaining_nonneg rest'). pose proof (remaining_nonneg c).
    rewrite Hc, remaining_app in *. lia.
  - split; intros; discriminate.
  - split; [|intros; discriminate].
    intros f' Heq. injection Heq as <-. exact Hshape.
Qed.

Lemma parseResponse_fault_only_in_walk_witness :
  parseResponse Parser_default (mkHeader 230 MT.RWalk 1)
    (x11 :: x00 :: repeat x00 221)
  = Undefined (StoreOutOfBounds 16 16) /\
  16 < nqidsField (x11 :: x00 :: repeat x00 221).
Proof.
  split; [reflexivity|].
  destruct (parseResponse_fault_only_in_walk Parser_default
              (mkHeader 230 MT.RWalk 1) (x11 :: x00 :: repeat x00 221))
    as (H & _).
  destruct (H (StoreOutOfBounds 16 16) eq_refl) as (_ & Hn & _).
  exact Hn.
Defined.

(* ========================================================================= *)
(** * The fuzzing driver *)

(** X18. The driver's routing by parity agrees with the two switches.  On
    an input shorter than seven bytes the driver stops at the header.  On an
    input whose header is accepted, every type code that is a case label of
    [parseRequest] is even and goes to [parseRequest], and every type code
    that is a case label of [parseResponse] is odd and goes to
    [parseResponse], each with the cursor the header parse left. *)
Theorem fuzzRun_routes data :
  (remaining data < 7 ->
   fuzzRun data = HeaderRefused (Err (getCannedError IllFormedHeader))) /\
  (forall h rest,
      parseMessageHeader Parser_default data = (Ok h, rest) ->
      (In (type h) [100; 102; 104; 108; 110; 112; 114; 116; 118; 120; 122;
                    124; 126; 150; 152; 154] ->
       fuzzRun data = RequestRouted (parseRequest Parser_default h rest)) /\
      (In (type h) [101; 103; 105; 107; 109; 111; 113; 115; 117; 119; 121;
                    123; 125; 127; 151; 153; 155] ->
       fuzzRun data = ResponseRouted (parseResponse Parser_default h rest))).
Proof.
  split.
  - intros Hshort. unfold fuzzRun.
    rewrite parseMessageHeader_short_buffer_eq by exact Hshort. reflexivity.
  - intros [sz t tg] rest Hhdr. unfold fuzzRun. rewrite Hhdr.
    cbn [type]. split; intros Hin; simpl in Hin;
      repeat (destruct Hin as [<-|Hin]; [reflexivity|]); contradiction.
Qed.

(** A TClunk frame and an RClunk frame through the driver. *)
Lemma fuzzRun_routes_witness :
  fuzzRun [x0b; x00; x00; x00; x78; x01; x00; x05; x00; x00; x00]
  = RequestRouted (Ok (Request_Clunk 5, [])) /\
  fuzzRun [x07; x00; x00; x00; x79; x01; x00]
  = ResponseRouted (Ok (Response_Clunk, [])) /\
  fuzzRun [x07; x00; x00] = HeaderRefused (Err (getCannedError IllFormedHeader)).
Proof.
  destruct (fuzzRun_routes
              [x0b; x00; x00; x00; x78; x01; x00; x05; x00; x00; x00])
    as (_ & Hreq).
  destruct (Hreq (mkHeader 11 MT.TClunk 1) [x05; x00; x00; x00] eq_refl)
    as (Hreq' & _).
  destruct (fuzzRun_routes [x07; x00; x00; x00; x79; x01; x00]) as (_ & Hresp).
  destruct (Hresp (mkHeader 7 MT.RClunk 1) [] eq_refl) as (_ & Hresp').
  destruct (fuzzRun_routes [x07; x00; x00]) as (Hshort & _).
  split; [|split].
  - rewrite Hreq'; [reflexivity|]. vm_compute. auto 20.
  - rewrite Hresp'; [reflexivity|]. vm_compute. auto 20.
  - apply Hshort. vm_compute. reflexivity.
Defined.

(** X19. The file-driven entry of the driver feeds it no bytes.
    [readDataAndTest] reserves the vector, which leaves its size at 0, and
    asks the stream for [buf.size()] characters: whatever the stream holds,
    the buffer handed to [LLVMFuzzerTestOneInput] is empty, and the run
    stops at the header with IllFormedHeader. *)
Theorem readDataAndTest_reads_nothing input :
  vec_size (vec_reserve (mkVector [] 0) (Z.to_nat kMaxMesssageSize)) = 0%nat /\
  Z.of_nat (vec_capacity (vec_reserve (mkVector [] 0)
                                      (Z.to_nat kMaxMesssageSize))) = 8192 /\
  readDataAndTest_buffer input = [] /\
  fuzzRun (readDataAndTest_buffer input)
  = HeaderRefused (Err (getCannedError IllFormedHeader)).
Proof.
  split; [reflexivity|]. split; [reflexivity|].
  assert (E : readDataAndTest_buffer input = []) by reflexivity.
  rewrite E. split; reflexivity.
Qed.

(* ========================================================================= *)
(** * Frames in a stream *)

Lemma header_fields_app hdr tail :
  length hdr = 7%nat ->
  sizeField (hdr ++ tail) = sizeField hdr /\
  typeField (hdr ++ tail) = typeField hdr /\
  tagField (hdr ++ tail) = tagField hdr /\
  skipn 7 (hdr ++ tail) = tail.
Proof.
  intros H.
  do 7 (destruct hdr as [|? hdr]; [discriminate H|]).
  destruct hdr; [|discriminate H].
  repeat split.
Qed.

(** X20. The header parse reads the first seven bytes and nothing else.
    For a seven-byte header followed by any bytes whatever, the outcome of
    [parseMessageHeader], success or refusal, is the outcome on the seven
    bytes alone, and on success the cursor is left on the first byte after
    them. *)
Theorem parseMessageHeader_prefix p hdr tail :
  length hdr = 7%nat ->
  fst (parseMessageHeader p (hdr ++ tail)) = fst (parseMessageHeader p hdr) /\
  (isOk (fst (parseMessageHeader p hdr)) = true ->
   snd (parseMessageHeader p (hdr ++ tail)) = tail).
Proof.
  intros H.
  destruct (header_fields_app hdr tail H) as (Hs & Ht & Hg & Hk).
  assert (H1 : 7 <= remaining hdr) by (unfold remaining; lia).
  assert (H2 : 7 <= remaining (hdr ++ tail))
    by (rewrite remaining_app; pose proof (remaining_nonneg tail); lia).
  rewrite (parseMessageHeader_steps p hdr),
    (parseMessageHeader_steps p (hdr ++ tail)) by assumption.
  rewrite Hs, Ht, Hg, Hk.
  destruct (sizeField hdr <? headerSize); [split; [reflexivity|discriminate]|].
  destruct (sizeField hdr >? maxNegotiatedMessageSize p);
    [split; [reflexivity|discriminate]|].
  destruct ((typeField hdr <? MT._beginSupportedMessageCode)
            || (typeField hdr >=? MT._endSupportedMessageCode));
    [split; [reflexivity|discriminate]|].
  split; reflexivity.
Qed.

(** A TClunk header with its payload and the start of a next frame behind
    it. *)
Lemma parseMessageHeader_prefix_witness :
  fst (parseMessageHeader Parser_default
         ([x0b; x00; x00; x00; x78; x01; x00] ++ [x05; x00; x00; x00; x07]))
  = fst (parseMessageHeader Parser_default [x0b; x00; x00; x00; x78; x01; x00])
  /\ snd (parseMessageHeader Parser_default
            ([x0b; x00; x00; x00; x78; x01; x00] ++ [x05; x00; x00; x00; x07]))
     = [x05; x00; x00; x00; x07].
Proof.
  destruct (parseMessageHeader_prefix Parser_default
              [x0b; x00; x00; x00; x78; x01; x00] [x05; x00; x00; x00; x07]
              eq_refl) as (Hfst & Hsnd).
  split; [exact Hfst | apply Hsnd; reflexivity].
Defined.

(** X21. A larger negotiated size refuses nothing a smaller one accepted.
    If the header parse succeeds on a parser, it succeeds with the same
    header and cursor on every parser whose negotiated size is at least as
    large, and both payload entry points return there what they returned
    on the first parser. *)
Theorem accepted_under_larger_size p p' src h rest data :
  maxNegotiatedMessageSize p <= maxNegotiatedMessageSize p' ->
  parseMessageHeader p src = (Ok h, rest) ->
  parseMessageHeader p' src = (Ok h, rest) /\
  parseRequest p' h data = parseRequest p h data /\
  parseResponse p' h data = parseResponse p h data.
Proof.
  intros Hle Hhdr.
  destruct (parseMessageHeader_ok_inv p src h rest Hhdr)
    as (Hlen & -> & -> & Hsize & _ & Hty & _).
  cbn [messageSize type] in Hsize, Hty.
  split.
  - destruct (parseMessageHeader_cases p' src Hlen)
      as [[Hs E]|[[_ [Hs E]]|[[_ [Hs E]]|[_ [_ E]]]]]; try lia. exact E.
  - rewrite !parseRequest_steps, !parseResponse_steps. cbn [messageSize].
    destruct (Z.gtb_spec (sizeField src) (maxNegotiatedMessageSize p)); [lia|].
    destruct (Z.gtb_spec (sizeField src) (maxNegotiatedMessageSize p'));
      [lia|].
    split; reflexivity.
Qed.

Lemma accepted_under_larger_size_witness :
  parseMessageHeader Parser_default [x0b; x00; x00; x00; x78; x01; x00]
  = (Ok (mkHeader 11 MT.TClunk 1), []) /\
  parseRequest Parser_default (mkHeader 11 MT.TClunk 1) [x05; x00; x00; x00]
  = parseRequest (mkParser 8192 256 PROTOCOL_VERSION PROTOCOL_VERSION)
      (mkHeader 11 MT.TClunk 1) [x05; x00; x00; x00].
Proof.
  destruct (accepted_under_larger_size
              (mkParser 8192 256 PROTOCOL_VERSION PROTOCOL_VERSION)
              Parser_default [x0b; x00; x00; x00; x78; x01; x00]
              (mkHeader 11 MT.TClunk 1) [] [x05; x00; x00; x00])
    as (Hhdr & Hreq & _); [vm_compute; congruence | reflexivity |].
  split; [exact Hhdr | exact Hreq].
Defined.
